(** * win32_process.cpp: process injection and deferred environment edits

    A shallow embedding of [renderdoc/os/win32/win32_process.cpp] and a
    verification of its natural-language specification.

    Conventions of the embedding.
    - Text ([std::string], [std::wstring], C strings) is a [string]: a finite
      sequence of code units.  The conversions [StringFormat::UTF82Wide] and
      [StringFormat::Wide2UTF8] change the encoding and not the text, so they
      are transparent here.
    - A nullable pointer argument is an [option]: [None] is the null pointer,
      [Some x] a pointer to [x].
    - Undefined behaviour of the C++ source (a read beyond an array, [back()]
      of an empty string, [wcschr] returning null and being dereferenced) is
      the error [None] of an [option] result.
    - Calls into the operating system whose result the code branches on are
      inputs of the embedded function; calls made for their effect are
      recorded in a trace or applied to an explicit model of the kernel
      object they act on. *)

From Stdlib Require Import ZArith NArith Ascii String List Lia Bool.
From Stdlib.Strings Require Import Byte.
From stdpp Require Import base option list strings gmap fin_maps pretty.

Local Open Scope string_scope.
Local Open Scope Z_scope.
Local Open Scope list_scope.

(** Appending to a string that starts with a known character computes. *)
Local Arguments String.append !_ _ / : simpl nomatch.

(** ** Characters and text *)

(** The double quote and the backslash, by their codes. *)
Definition dquote : ascii := ascii_of_nat 34.
Definition backslash : ascii := ascii_of_nat 92.
Definition equals_sign : ascii := ascii_of_nat 61.

(** [towlower] of the C library in the C locale: the letters A..Z go to
    a..z, every other code unit is kept. *)
Definition towlower (c : ascii) : ascii :=
  let n := nat_of_ascii c in
  if ((65 <=? n) && (n <=? 90))%nat then ascii_of_nat (n + 32) else c.

(** [static wstring lowercase(wstring in)], lines 38-45. *)
Fixpoint lowercase (s : string) : string :=
  match s with
  | EmptyString => EmptyString
  | String c t => String (towlower c) (lowercase t)
  end.

(** Modelled from the spec: [strlower] of serialise/string_utils.h is not
    under src/; the spec has the locator compare names "under lowercase",
    so it lowers every code unit, as [lowercase] does. *)
Definition strlower (s : string) : string := lowercase s.

(** Modelled from the spec: [trim] of serialise/string_utils.h is not under
    src/; the spec calls it "whitespace trimming": leading and trailing
    blanks, tabs, carriage returns and line feeds are removed. *)
Definition is_space (c : ascii) : bool :=
  let n := nat_of_ascii c in
  ((n =? 32) || (n =? 9) || (n =? 10) || (n =? 13))%nat.

Fixpoint trim_left (s : string) : string :=
  match s with
  | EmptyString => EmptyString
  | String c t => if is_space c then trim_left t else s
  end.

Fixpoint trim_right (s : string) : string :=
  match s with
  | EmptyString => EmptyString
  | String c t =>
      match trim_right t with
      | EmptyString => if is_space c then EmptyString else String c EmptyString
      | t' => String c t'
      end
  end.

Definition trim (s : string) : string := trim_right (trim_left s).

(** [s.back()]: the last code unit; undefined on the empty string. *)
Fixpoint back (s : string) : option ascii :=
  match s with
  | EmptyString => None
  | String c EmptyString => Some c
  | String _ t => back t
  end.

(** [s.empty()]. *)
Definition empty (s : string) : bool :=
  match s with EmptyString => true | _ => false end.

(** [wcsstr(hay, needle)]: the offset of the first occurrence of [needle]
    in [hay], or [None] for the null result. *)
Fixpoint wcsstr (hay needle : string) : option nat :=
  if String.prefix needle hay then Some 0%nat
  else match hay with
       | EmptyString => None
       | String _ t => S <$> wcsstr t needle
       end.

(** [wcschr(e, c)] followed by the split the caller makes: the text before
    the first [c] and the text after it; [None] when [c] does not occur
    (the null result, which the caller dereferences). *)
Fixpoint wcschr_split (c : ascii) (e : string) : option (string * string) :=
  match e with
  | EmptyString => None
  | String a t =>
      if Ascii.eqb a c then Some (EmptyString, t)
      else '(name, value) ← wcschr_split c t; Some (String a name, value)
  end.

(** ** Data model *)

(** Modelled from the spec: [Process::ModificationType] is declared in
    os/os_specific.h, not under src/; the variants are those the spec lists
    and the [switch] statements of the source name. *)
Inductive ModificationType :=
  | eEnvModification_Replace
  | eEnvModification_Append
  | eEnvModification_AppendColon
  | eEnvModification_AppendSemiColon
  | eEnvModification_AppendPlatform
  | eEnvModification_Prepend
  | eEnvModification_PrependColon
  | eEnvModification_PrependSemiColon
  | eEnvModification_PrependPlatform.

Global Instance ModificationType_eq_dec : EqDecision ModificationType.
Proof. solve_decision. Defined.

(** [Process::EnvironmentModification]: the fields the source reads. *)
Record EnvironmentModification := mkEnvMod {
  type : ModificationType;
  name : string;
  value : string
}.

Global Instance EnvironmentModification_eq_dec : EqDecision EnvironmentModification.
Proof. solve_decision. Defined.

(** [CaptureOptions] is a fixed-size record the file only handles as its
    bytes. *)
Definition CaptureOptions := list byte.

(** ** The capture library's process: deferred environment edits *)

(** Modelled from the spec: the singleton [RenderDoc::Inst()] is defined in
    core/core.h, not under src/; of it the file uses the three members of
    section 6 of the spec: the control identifier that is written out, the
    capture options that are "copied into library state" and the log file
    that is set. *)
Record RenderDoc := mkRenderDoc {
  targetControlIdent : Z;
  captureOptions : CaptureOptions;
  logFile : string
}.

Definition GetTargetControlIdent (r : RenderDoc) : Z := targetControlIdent r.

Definition SetCaptureOptions (opts : CaptureOptions) (r : RenderDoc) : RenderDoc :=
  {| targetControlIdent := targetControlIdent r;
     captureOptions := opts;
     logFile := logFile r |}.

Definition SetLogFile (log : string) (r : RenderDoc) : RenderDoc :=
  {| targetControlIdent := targetControlIdent r;
     captureOptions := captureOptions r;
     logFile := log |}.

(** The live environment of a process: its variables, as (name, value), in
    the order of the environment block. *)
Definition Environment := list (string * string).

(** The state the capture library's entry points act on: the live
    environment, the static [envCallbacks] of [GetEnvModifications], the
    static staging record [tempEnvMod], and the [RenderDoc] singleton. *)
Record Process := mkProcess {
  environ : Environment;
  envCallbacks : list EnvironmentModification;
  tempEnvMod : EnvironmentModification;
  Inst : RenderDoc
}.

(** Win32 [GetEnvironmentStringsW]: the block of the live environment, one
    [name=value] entry for each variable (each entry is NUL-terminated
    in memory and the block ends at an empty entry). *)
Definition GetEnvironmentStringsW (env : Environment) : list string :=
  (fun nv => fst nv +:+ String equals_sign (snd nv)) <$> env.

(** Win32 [SetEnvironmentVariableW] with a non-null value, as documented:
    variable names are compared without regard to case; a variable that
    exists keeps its place and spelling and takes the new value; otherwise
    a variable of the given spelling is added. *)
Fixpoint SetEnvironmentVariableW (lpName lpValue : string) (env : Environment)
  : Environment :=
  match env with
  | [] => [(lpName, lpValue)]
  | (n, v) :: rest =>
      if String.eqb (lowercase n) (lowercase lpName)
      then (n, lpValue) :: rest
      else (n, v) :: SetEnvironmentVariableW lpName lpValue rest
  end.

(** Win32 [GetEnvironmentVariableW] under the same rule, for reading the
    result back. *)
Fixpoint GetEnvironmentVariableW (lpName : string) (env : Environment)
  : option string :=
  match env with
  | [] => None
  | (n, v) :: rest =>
      if String.eqb (lowercase n) (lowercase lpName) then Some v
      else GetEnvironmentVariableW lpName rest
  end.

(** [EnvStringToEnvMap], lines 53-79.  The loop runs while the entry at [e]
    is not empty; each entry is split at its first [=]; the name is lowered
    and [ret[lowercase(name)]] is assigned, a later entry overwriting an
    earlier one of the same key. *)
Fixpoint EnvStringToEnvMap_from (e : list string) (ret : gmap string string)
  : option (gmap string string) :=
  match e with
  | [] => Some ret
  | entry :: e' =>
      if empty entry then Some ret
      else
        '(name, value) ← wcschr_split equals_sign entry;
        EnvStringToEnvMap_from e' (<[lowercase name := value]> ret)
  end.

Definition EnvStringToEnvMap (envstring : list string) : option (gmap string string) :=
  EnvStringToEnvMap_from envstring ∅.

(** [Process::RegisterEnvironmentModification], lines 81-84. *)
Definition RegisterEnvironmentModification (modif : EnvironmentModification)
  (p : Process) : Process :=
  {| environ := environ p;
     envCallbacks := envCallbacks p ++ [modif];
     tempEnvMod := tempEnvMod p;
     Inst := Inst p |}.

(** The [switch(m.type)] of lines 117-147, on the starting [value] and the
    edit's [m.value]. *)
Definition modified_value (t : ModificationType) (value0 mvalue : string) : string :=
  match t with
  | eEnvModification_Replace => mvalue
  | eEnvModification_Append => value0 +:+ mvalue
  | eEnvModification_AppendColon =>
      (if negb (empty value0) then value0 +:+ ":" else value0) +:+ mvalue
  | eEnvModification_AppendPlatform
  | eEnvModification_AppendSemiColon =>
      (if negb (empty value0) then value0 +:+ ";" else value0) +:+ mvalue
  | eEnvModification_Prepend => mvalue +:+ value0
  | eEnvModification_PrependColon =>
      if negb (empty value0) then mvalue +:+ ":" +:+ value0 else mvalue
  | eEnvModification_PrependPlatform
  | eEnvModification_PrependSemiColon =>
      if negb (empty value0) then mvalue +:+ ";" +:+ value0 else mvalue
  end.

(** One iteration of the loop of lines 99-150: the arguments of its
    [SetEnvironmentVariableW] call. *)
Definition modification_call (currentEnv : gmap string string)
  (m : EnvironmentModification) : string * string :=
  let lowername := lowercase (name m) in
  let '(value0, name0) :=
    match currentEnv !! lowername with
    | Some v => (v, lowername)
    | None => (EmptyString, name m)
    end in
  (name0, modified_value (type m) value0 (value m)).

(** The loop of lines 99-150 over the pending list: the calls it makes, in
    order, and the live environment after them.  [currentEnv] is the map
    built before the loop; the loop does not assign to it. *)
Fixpoint apply_loop (currentEnv : gmap string string)
  (modifications : list EnvironmentModification) (env : Environment)
  : list (string * string) * Environment :=
  match modifications with
  | [] => ([], env)
  | m :: rest =>
      let call := modification_call currentEnv m in
      let '(calls, env') :=
        apply_loop currentEnv rest (SetEnvironmentVariableW call.1 call.2 env) in
      (call :: calls, env')
  end.

(** [Process::ApplyEnvironmentModification], lines 91-154: the
    [SetEnvironmentVariableW] calls made, and the process afterwards. *)
Definition ApplyEnvironmentModification (p : Process)
  : option (list (string * string) * Process) :=
  currentEnv ← EnvStringToEnvMap (GetEnvironmentStringsW (environ p));
  let '(calls, env') := apply_loop currentEnv (envCallbacks p) (environ p) in
  Some (calls,
        {| environ := env';
           envCallbacks := [];
           tempEnvMod := tempEnvMod p;
           Inst := Inst p |}).

(** *** The exported entry points, lines 157-201 *)

(** [RENDERDOC_GetTargetControlIdent]: the result is what the caller's
    buffer holds afterwards ([None]: there is no buffer), and the process. *)
Definition RENDERDOC_GetTargetControlIdent (ident : option Z) (p : Process)
  : option Z * Process :=
  match ident with
  | Some _ => (Some (GetTargetControlIdent (Inst p)), p)
  | None => (None, p)
  end.

Definition with_Inst (f : RenderDoc -> RenderDoc) (p : Process) : Process :=
  {| environ := environ p;
     envCallbacks := envCallbacks p;
     tempEnvMod := tempEnvMod p;
     Inst := f (Inst p) |}.

Definition with_tempEnvMod (f : EnvironmentModification -> EnvironmentModification)
  (p : Process) : Process :=
  {| environ := environ p;
     envCallbacks := envCallbacks p;
     tempEnvMod := f (tempEnvMod p);
     Inst := Inst p |}.

Definition RENDERDOC_SetCaptureOptions (opts : option CaptureOptions) (p : Process)
  : Process :=
  match opts with
  | Some o => with_Inst (SetCaptureOptions o) p
  | None => p
  end.

Definition RENDERDOC_SetLogFile (log : option string) (p : Process) : Process :=
  match log with
  | Some l => with_Inst (SetLogFile l) p
  | None => p
  end.

Definition RENDERDOC_EnvModName (name' : option string) (p : Process) : Process :=
  match name' with
  | Some n =>
      with_tempEnvMod (fun t => {| type := type t; name := n; value := value t |}) p
  | None => p
  end.

Definition RENDERDOC_EnvModValue (value' : option string) (p : Process) : Process :=
  match value' with
  | Some v =>
      with_tempEnvMod (fun t => {| type := type t; name := name t; value := v |}) p
  | None => p
  end.

Definition RENDERDOC_EnvMod (type' : option ModificationType) (p : Process) : Process :=
  match type' with
  | Some ty =>
      let p' :=
        with_tempEnvMod (fun t => {| type := ty; name := name t; value := value t |}) p in
      RegisterEnvironmentModification (tempEnvMod p') p'
  | None => p
  end.

(** [RENDERDOC_ApplyEnvMods]: the argument is ignored. *)
Definition RENDERDOC_ApplyEnvMods {A} (ignored : option A) (p : Process)
  : option (list (string * string) * Process) :=
  ApplyEnvironmentModification p.

(** ** Win32 calls recorded by the controller-side functions *)

Inductive Handle := hModuleSnap | hQuery | hProcess | hThread.

Global Instance Handle_eq_dec : EqDecision Handle.
Proof. solve_decision. Defined.

(** The calls and log lines the embedded functions issue. *)
Inductive Event :=
  | CreateToolhelp32Snapshot
  | GetLastError
  | Module32First
  | Module32Next
  | OpenProcess
  | GetExitCodeProcess
  | CloseHandle (h : Handle)
  | ResumeThread (h : Handle)
  | WaitForSingleObject (h : Handle)
  | RDCWARN (what : string)
  | RDCERR (what : string).

Global Instance Event_eq_dec : EqDecision Event.
Proof. solve_decision. Defined.

(** ** The module locator: [FindRemoteDLL], lines 238-338 *)

(** winerror.h. *)
Definition ERROR_BAD_LENGTH : Z := 24.
(** winbase.h. *)
Definition STILL_ACTIVE : Z := 259.
(** tlhelp32.h. *)
Definition MAX_MODULE_NAME32 : nat := 255.

(** The two fields of [MODULEENTRY32] the function reads. *)
Record MODULEENTRY32 := mkModule {
  szModule : string;
  modBaseAddr : Z
}.

(** What one [CreateToolhelp32Snapshot] call gives: the invalid handle, with
    the code [GetLastError] reports for it, or a snapshot and the modules
    it enumerates. *)
Inductive Snapshot :=
  | INVALID_HANDLE_VALUE (err : Z)
  | SnapshotOf (modules : list MODULEENTRY32).

(** What the function learns of the target from the system: the outcome of
    the k-th snapshot call, and the liveness probe ([None]: [OpenProcess]
    gave no handle; [Some c]: the exit code read). *)
Record Target := mkTarget {
  snapshot_attempt : nat -> Snapshot;
  liveness : option Z
}.

(** [wcsncpy_s(dst, src, count)] into a buffer of more than [count] units:
    the first [count] units of [src]. *)
Definition wcsncpy_s (src : string) (count : nat) : string :=
  String.substring 0 count src.

(** What a pass of the loop of lines 245-262 issues when the snapshot is
    not given: the call, [GetLastError], and the warning. *)
Definition failed_attempt : list Event :=
  [CreateToolhelp32Snapshot; GetLastError; RDCWARN "CreateToolhelp32Snapshot"].

(** The loop of lines 245-262, entered at index [10 - remaining]: the
    snapshot held at its end ([None]: the invalid handle) and the calls
    made. *)
Fixpoint snapshot_loop (t : Target) (remaining i : nat)
  : option (list MODULEENTRY32) * list Event :=
  match remaining with
  | O => (None, [])
  | S remaining' =>
      match snapshot_attempt t i with
      | SnapshotOf modules => (Some modules, [CreateToolhelp32Snapshot])
      | INVALID_HANDLE_VALUE err =>
          if err =? ERROR_BAD_LENGTH then
            let '(snap, calls) := snapshot_loop t remaining' (S i) in
            (snap, failed_attempt ++ calls)
          else (None, failed_attempt)
      end
  end.

(** The lowered copy of the module name, lines 291-300. *)
Definition modnameLower (me32 : MODULEENTRY32) : string :=
  lowercase (wcsncpy_s (szModule me32) MAX_MODULE_NAME32).

(** The [do ... while(ret == 0 && Module32Next(...))] of lines 289-308, at
    the entry [me32] with [rest] still to enumerate: [ret] and
    [numModules]. *)
Fixpoint module_loop (libName : string) (me32 : MODULEENTRY32)
  (rest : list MODULEENTRY32) (numModules : nat) : Z * nat :=
  let numModules := S numModules in
  let ret :=
    match wcsstr (modnameLower me32) libName with
    | Some _ => modBaseAddr me32
    | None => 0
    end in
  if ret =? 0 then
    match rest with
    | [] => (ret, numModules)
    | next :: rest' => module_loop libName next rest' numModules
    end
  else (ret, numModules).

(** Lines 310-333: the probe made when nothing was found. *)
Definition liveness_probe (t : Target) : list Event :=
  match liveness t with
  | None => [OpenProcess; RDCERR "no longer available"]
  | Some exitCode =>
      [OpenProcess; GetExitCodeProcess] ++
      (if exitCode =? STILL_ACTIVE
       then [RDCERR "Couldn't find module"]
       else [RDCERR "no longer available"]) ++
      [CloseHandle hQuery]
  end.

(** [FindRemoteDLL]: the address returned, and the calls and log lines
    issued (the [Module32Next] calls of the walk are left out of the
    trace). *)
Definition FindRemoteDLL (t : Target) (libName : string) : Z * list Event :=
  let libName := strlower libName in
  let '(snap, calls) := snapshot_loop t 10 0 in
  match snap with
  | None => (0, calls ++ [RDCERR "Couldn't create toolhelp dump"])
  | Some [] =>
      (0, calls ++ [Module32First; GetLastError;
                    RDCERR "Couldn't get first module"; CloseHandle hModuleSnap])
  | Some (me32 :: rest) =>
      let '(ret, numModules) := module_loop libName me32 rest 0 in
      (ret,
       calls ++ [Module32First] ++
       (if ret =? 0 then liveness_probe t else []) ++
       [CloseHandle hModuleSnap])
  end.

(** ** [Process::InjectIntoProcess], lines 444-712 *)

(** [char('a' + n)]. *)
Definition char_a_plus (n : N) : ascii := ascii_of_N (N_of_ascii "a" + n).

(** The two characters pushed for one byte, lines 552-553. *)
Definition optstr_byte (b : byte) : string :=
  String (char_a_plus (N.land (N.shiftr (Byte.to_N b) 4) 15))
    (String (char_a_plus (N.land (Byte.to_N b) 15)) EmptyString).

(** "serialise to string with two chars per byte", lines 545-555 (and
    800-810): the loop over the [sizeof(CaptureOptions)] bytes at [opts]. *)
Fixpoint optstr (b : list byte) : string :=
  match b with
  | [] => EmptyString
  | b0 :: b' => optstr_byte b0 +:+ optstr b'
  end.

(** Modelled from the spec: the reader of [--capopts] is in the helper
    executable, not under src/; the spec names it [decode] and gives it by
    [decode(encode(B)) == B] for the encoding above, so each pair of
    characters gives the byte with high nibble [c1 - 'a'] and low nibble
    [c2 - 'a']. *)
Definition byte_of_N (n : N) : byte :=
  match Byte.of_N (n mod 256) with Some b => b | None => x00 end.

Definition decode_pair (c1 c2 : ascii) : byte :=
  byte_of_N (N.lor (N.shiftl (N_of_ascii c1 - N_of_ascii "a") 4)
                   (N_of_ascii c2 - N_of_ascii "a")).

Fixpoint decode (s : string) : list byte :=
  match s with
  | String c1 (String c2 s') => decode_pair c1 c2 :: decode s'
  | _ => []
  end.

(** The [switch(type)] of lines 583-598. *)
Definition env_switch (t : ModificationType) : string :=
  match t with
  | eEnvModification_Replace => "replace "
  | eEnvModification_AppendPlatform => "append-platform "
  | eEnvModification_AppendSemiColon => "append-semicolon "
  | eEnvModification_AppendColon => "append-colon "
  | eEnvModification_Append => "append "
  | eEnvModification_PrependPlatform => "prepend-platform "
  | eEnvModification_PrependSemiColon => "prepend-semicolon "
  | eEnvModification_PrependColon => "prepend-colon "
  | eEnvModification_Prepend => "prepend "
  end.

(** The loops of lines 601-611: at each double quote a backslash is
    inserted before it and the iterator moved past both. *)
Fixpoint escape_quotes (s : string) : string :=
  match s with
  | EmptyString => EmptyString
  | String c t =>
      if Ascii.eqb c dquote
      then String backslash (String c (escape_quotes t))
      else String c (escape_quotes t)
  end.

(** Lines 613-617: [if(s.back() == '\\') s += "\\"]. *)
Definition double_last_backslash (s : string) : option string :=
  c ← back s;
  Some (if Ascii.eqb c backslash then s +:+ String backslash EmptyString else s).

(** Lines 600-617 for one parameter. *)
Definition escape_parameter (s : string) : option string :=
  double_last_backslash (escape_quotes s).

(** Lines 619-620: the parameter between double quotes, and a blank. *)
Definition quoted (s : string) : string :=
  String dquote (s +:+ String dquote " ").

(** The [for(;;)] of lines 573-623 from the entry at which [env] points.
    The entries of the caller's array are the list; running off its end is
    a read beyond the array. *)
Fixpoint cmdWithEnv_loop (env : list EnvironmentModification) (cmdWithEnv : string)
  : option string :=
  match env with
  | [] => None
  | e :: env' =>
      let name0 := trim (name e) in
      if empty name0 then Some cmdWithEnv
      else
        let cmdWithEnv := cmdWithEnv +:+ " +env-" +:+ env_switch (type e) in
        name1 ← escape_parameter name0;
        value1 ← escape_parameter (value e);
        cmdWithEnv_loop env' (cmdWithEnv +:+ quoted name1 +:+ quoted value1)
  end.

(** Lines 565-626: the command line handed to [CreateProcessW], from the
    formatted [paramsAlloc] and the caller's [env] pointer. *)
Definition commandLine (paramsAlloc : string)
  (env : option (list EnvironmentModification)) : option string :=
  match env with
  | None => Some paramsAlloc
  | Some entries => cmdWithEnv_loop entries paramsAlloc
  end.

(** The data a remote call carries: the [dataLen] bytes at [data], which
    [InjectFunctionCall] writes into the target (line 362).  For the call
    of line 701 they are the bytes of the entry at which [env] points (the
    kind and the two string objects of that entry). *)
Inductive Payload :=
  | ofString (s : string)
  | ofCaptureOptions (o : CaptureOptions)
  | ofIdent (ident : Z)
  | ofType (t : ModificationType)
  | ofEnvPointer (e : EnvironmentModification).

Record RemoteCall := mkCall {
  funcName : string;
  data : Payload
}.

(** [InjectFunctionCall], lines 340-372, for the call it makes in the
    target: none when [dataLen] is zero. *)
Definition InjectFunctionCall (funcName : string) (data : Payload) (dataLen : nat)
  : list RemoteCall :=
  match dataLen with
  | O => []
  | S _ => [mkCall funcName data]
  end.

(** [strlen(s) + 1] and [s.size() + 1]. *)
Definition size_plus_1 (s : string) : nat := S (String.length s).

(** The [for(;;)] of lines 682-698: the calls made, and the entry at
    which [env] points when the loop is left. *)
Fixpoint env_calls_loop (env : list EnvironmentModification)
  : option (list RemoteCall * EnvironmentModification) :=
  match env with
  | [] => None
  | e :: env' =>
      let name0 := trim (name e) in
      if empty name0 then Some ([], e)
      else
        '(calls, last_entry) ← env_calls_loop env';
        Some (InjectFunctionCall "RENDERDOC_EnvModName" (ofString name0)
                (size_plus_1 name0) ++
              InjectFunctionCall "RENDERDOC_EnvModValue" (ofString (value e))
                (size_plus_1 (value e)) ++
              InjectFunctionCall "RENDERDOC_EnvMod" (ofType (type e)) 4 ++
              calls,
              last_entry)
  end.

(** Modelled from the spec: [sizeof(EnvironmentModification)]; the struct
    is declared in os/os_specific.h, not under src/.  It holds two strings
    and the kind, so it is not zero, which is all the call depends on. *)
Definition sizeof_EnvironmentModification : nat := 72.

(** Lines 680-703: the calls for the caller's [env] pointer.  The last
    call is given [env] as the loop left it, so its data is the entry that
    ended the loop. *)
Definition env_calls (env : option (list EnvironmentModification))
  : option (list RemoteCall) :=
  match env with
  | None => Some []
  | Some entries =>
      '(calls, last_entry) ← env_calls_loop entries;
      Some (calls ++
            InjectFunctionCall "RENDERDOC_ApplyEnvMods" (ofEnvPointer last_entry)
              sizeof_EnvironmentModification)
  end.

(** Lines 666-704: the remote calls of the direct branch once the library
    is located ([loc] is not zero).  [controlident] is the local buffer
    sent, which holds 0. *)
Definition boot_calls (logfile : option string) (opts : option CaptureOptions)
  (env : option (list EnvironmentModification)) : option (list RemoteCall) :=
  calls ← env_calls env;
  Some ((match logfile with
         | Some l => InjectFunctionCall "RENDERDOC_SetLogFile" (ofString l) (size_plus_1 l)
         | None => []
         end) ++
        (match opts with
         | Some o =>
             InjectFunctionCall "RENDERDOC_SetCaptureOptions" (ofCaptureOptions o)
               (length o)
         | None => []
         end) ++
        InjectFunctionCall "RENDERDOC_GetTargetControlIdent" (ofIdent 0) 4 ++
        calls).

(** ** Launching: lines 714-771 *)

(** [Process::LaunchProcess], lines 714-731, from the process id that
    [RunProcess] returned. *)
Definition LaunchProcess (dwProcessId : Z) : Z * list Event :=
  if dwProcessId =? 0 then (0, [RDCERR "Couldn't launch process"])
  else (dwProcessId, [ResumeThread hThread; CloseHandle hThread; CloseHandle hProcess]).

(** [Process::LaunchAndInjectIntoProcess], lines 733-771.  [func] is the
    result of [GetProcAddress] ([None]: null), [dwProcessId] the process id
    [RunProcess] returned and [ret] the value [InjectIntoProcess] returned
    for it.  The result is the value returned and the calls made on the
    child's handles. *)
Definition LaunchAndInjectIntoProcess (func : option unit) (dwProcessId : Z)
  (ret : Z) (waitForExit : bool) : Z * list Event :=
  match func with
  | None => (0, [RDCERR "Can't find required export function"])
  | Some _ =>
      if dwProcessId =? 0 then (0, [])
      else
        let calls :=
          [CloseHandle hProcess; ResumeThread hThread; ResumeThread hThread] in
        if ret =? 0 then (0, calls ++ [CloseHandle hThread])
        else
          (ret,
           calls ++
           (if waitForExit then [WaitForSingleObject hThread] else []) ++
           [CloseHandle hThread])
  end.

(** The primary thread of the child as the kernel holds it: its suspend
    count, and whether the launcher's handle to it is open. *)
Record Thread := mkThread {
  suspendCount : nat;
  handleOpen : bool
}.

(** A thread made by [CreateProcessW] with [CREATE_SUSPENDED]. *)
Definition created_suspended : Thread :=
  {| suspendCount := 1; handleOpen := true |}.

(** The effect of one call on the thread: [ResumeThread] lowers a suspend
    count that is not zero, and leaves a running thread as it is;
    [CloseHandle] closes the handle. *)
Definition thread_step (th : Thread) (e : Event) : Thread :=
  match e with
  | ResumeThread hThread =>
      {| suspendCount := Nat.pred (suspendCount th); handleOpen := handleOpen th |}
  | CloseHandle hThread =>
      {| suspendCount := suspendCount th; handleOpen := false |}
  | _ => th
  end.

Definition thread_after (calls : list Event) (th : Thread) : Thread :=
  fold_left thread_step calls th.

Definition suspended (th : Thread) : bool := negb (suspendCount th =? 0)%nat.

(** ** The remote calls, run in the target *)

(** What the thread of a remote call does in the target: the exported
    function of that name runs on a pointer to the copied data.  A name
    that is not exported for this kind of data gives [None]. *)
Definition run_remote_call (c : RemoteCall) (p : Process) : option Process :=
  match data c with
  | ofString s =>
      if String.eqb (funcName c) "RENDERDOC_SetLogFile"
      then Some (RENDERDOC_SetLogFile (Some s) p)
      else if String.eqb (funcName c) "RENDERDOC_EnvModName"
      then Some (RENDERDOC_EnvModName (Some s) p)
      else if String.eqb (funcName c) "RENDERDOC_EnvModValue"
      then Some (RENDERDOC_EnvModValue (Some s) p)
      else None
  | ofCaptureOptions o =>
      if String.eqb (funcName c) "RENDERDOC_SetCaptureOptions"
      then Some (RENDERDOC_SetCaptureOptions (Some o) p)
      else None
  | ofIdent ident =>
      if String.eqb (funcName c) "RENDERDOC_GetTargetControlIdent"
      then Some (RENDERDOC_GetTargetControlIdent (Some ident) p).2
      else None
  | ofType t =>
      if String.eqb (funcName c) "RENDERDOC_EnvMod"
      then Some (RENDERDOC_EnvMod (Some t) p)
      else None
  | ofEnvPointer e =>
      if String.eqb (funcName c) "RENDERDOC_ApplyEnvMods"
      then snd <$> RENDERDOC_ApplyEnvMods (Some e) p
      else None
  end.

(** The calls of a list, one after the other. *)
Fixpoint run_remote_calls (calls : list RemoteCall) (p : Process) : option Process :=
  match calls with
  | [] => Some p
  | c :: calls' => p' ← run_remote_call c p; run_remote_calls calls' p'
  end.

(** An entry of the caller's array as it is sent: with its name trimmed. *)
Definition trimmed (e : EnvironmentModification) : EnvironmentModification :=
  {| type := type e; name := trim (name e); value := value e |}.

(** ** Notions the statements use *)

(** [s1] occurs in [s2]. *)
Definition occurs_in (s1 s2 : string) : Prop :=
  exists l r, s2 = l +:+ s1 +:+ r.

(** No [=] in [s]. *)
Fixpoint no_equals (s : string) : bool :=
  match s with
  | EmptyString => true
  | String c t => negb (Ascii.eqb c equals_sign) && no_equals t
  end.

(** A variable name as the environment block has it: no [=] after the
    first character (the hidden per-drive variables start with [=]). *)
Definition block_name (n : string) : bool :=
  match n with
  | EmptyString => true
  | String _ t => no_equals t
  end.

(** A name that is not empty and does not start with [=]. *)
Definition plain_name (n : string) : bool :=
  match n with
  | EmptyString => false
  | String c _ => negb (Ascii.eqb c equals_sign)
  end.

(** A live environment: block names, no two of them equal up to case. *)
Definition wf_environ (env : Environment) : Prop :=
  Forall (fun nv => block_name nv.1 = true) env /\ NoDup (lowercase <$> env.*1).

(** The lowered module name contains the lowered query. *)
Definition name_matches (libName : string) (me32 : MODULEENTRY32) : Prop :=
  occurs_in (lowercase libName) (lowercase (szModule me32)).

(** The module name fits the [szModule] array. *)
Definition name_fits (me32 : MODULEENTRY32) : Prop :=
  (String.length (szModule me32) <= MAX_MODULE_NAME32)%nat.

(** The [k] snapshot calls from the one of index [i] on all fail with the
    transient error. *)
Definition bad_length (t : Target) (i k : nat) : Prop :=
  forall j, (j < k)%nat ->
    snapshot_attempt t (i + j) = INVALID_HANDLE_VALUE ERROR_BAD_LENGTH.

(** The trace of [k] failed passes, one right after the other. *)
Fixpoint repeat_failed (k : nat) : list Event :=
  match k with
  | O => []
  | S k' => failed_attempt ++ repeat_failed k'
  end.

(** The number of snapshot calls in a trace. *)
Definition attempts_made (calls : list Event) : nat :=
  count_occ Event_eq_dec calls CreateToolhelp32Snapshot.

(** The text that one entry of the caller's array adds to the helper's
    command line: the kind, then the trimmed name and the value, each
    escaped and quoted. *)
Definition env_argument (e : EnvironmentModification) : option string :=
  name1 ← escape_parameter (trim (name e));
  value1 ← escape_parameter (value e);
  Some (" +env-" +:+ env_switch (type e) +:+ quoted name1 +:+ quoted value1).

(** The three remote calls that carry one entry of the caller's array. *)
Definition entry_calls (e : EnvironmentModification) : list RemoteCall :=
  [ mkCall "RENDERDOC_EnvModName" (ofString (trim (name e)));
    mkCall "RENDERDOC_EnvModValue" (ofString (value e));
    mkCall "RENDERDOC_EnvMod" (ofType (type e)) ].

(** The texts of a list, one after the other. *)
Definition concat_strings (l : list string) : string :=
  foldr String.append EmptyString l.

(** ** Sample data of the scenarios *)

Definition no_edit : EnvironmentModification :=
  {| type := eEnvModification_Replace; name := EmptyString; value := EmptyString |}.

(** A capture library that has just been loaded into a process whose
    environment is [env]. *)
Definition loaded (env : Environment) : Process :=
  {| environ := env;
     envCallbacks := [];
     tempEnvMod := no_edit;
     Inst := {| targetControlIdent := 0; captureOptions := []; logFile := EmptyString |} |}.

(** The three calls by which a controller sends one edit. *)
Definition send_edit (m : EnvironmentModification) (p : Process) : Process :=
  RENDERDOC_EnvMod (Some (type m))
    (RENDERDOC_EnvModValue (Some (value m))
       (RENDERDOC_EnvModName (Some (name m)) p)).

(** Scenario S3: the edits [X a Replace] and [X b Append], sent in order to
    a process whose environment is [env]. *)
Definition S3_edits : list EnvironmentModification :=
  [ {| type := eEnvModification_Replace; name := "X"; value := "a" |};
    {| type := eEnvModification_Append; name := "X"; value := "b" |} ].

Definition S3_process (env : Environment) : Process :=
  foldl (fun p m => send_edit m p) (loaded env) S3_edits.

(** The live variable [lpName] after [ApplyEnvironmentModification]. *)
Definition variable_after_apply (lpName : string) (p : Process) : option string :=
  r ← ApplyEnvironmentModification p;
  GetEnvironmentVariableW lpName (environ r.2).


(** Scenario S5: every snapshot call gives the one module [LIB.DLL] at
    0x10000000. *)
Definition S5_target (live : option Z) : Target :=
  {| snapshot_attempt := fun _ => SnapshotOf [mkModule "LIB.DLL" 0x10000000];
     liveness := live |}.

(** A target with three modules, two of which match [renderdoc.dll]. *)
Definition three_modules_target : Target :=
  {| snapshot_attempt := fun _ =>
       SnapshotOf [mkModule "ntdll.dll" 0x77000000;
                   mkModule "RenderDoc.DLL" 0x10000000;
                   mkModule "renderdoc.dll" 0x20000000];
     liveness := Some STILL_ACTIVE |}.

(** A target whose snapshot fails three times with [ERROR_BAD_LENGTH] and
    then with error 5 ([ERROR_ACCESS_DENIED]). *)
Definition denied_target : Target :=
  {| snapshot_attempt := fun k =>
       if (k <? 3)%nat then INVALID_HANDLE_VALUE ERROR_BAD_LENGTH
       else INVALID_HANDLE_VALUE 5;
     liveness := Some STILL_ACTIVE |}.

(** An array of the caller: two edits, the terminating entry (its name is
    blank), and an entry after it. *)
Definition sample_env : list EnvironmentModification :=
  [ {| type := eEnvModification_AppendSemiColon; name := " PATH "; value := "C:\dir\" |};
    {| type := eEnvModification_Replace; name := "X"; value := "a b" |};
    {| type := eEnvModification_Replace; name := "  "; value := "zz" |};
    {| type := eEnvModification_Prepend; name := "Y"; value := "never" |} ].


(** One [SetEnvironmentVariableW] call, by its two arguments. *)
Definition set_call (e : Environment) (call : string * string) : Environment :=
  SetEnvironmentVariableW call.1 call.2 e.


(** How often an event occurs in a trace. *)
Definition occurrences (e : Event) (calls : list Event) : nat :=
  count_occ Event_eq_dec calls e.


(** The events that a failed snapshot pass does not issue. *)
Definition not_failed (e : Event) : Prop :=
  match e with
  | CreateToolhelp32Snapshot | GetLastError | RDCWARN _ => False
  | _ => True
  end.


(** A left inverse of [escape_quotes], by which [escape_quotes] is shown
    to be injective: a backslash before a double quote is dropped.  It is
    not the reader of the command line, which is [scan_argument]. *)
Fixpoint unescape_quotes (s : string) : string :=
  match s with
  | EmptyString => EmptyString
  | String c t =>
      match t with
      | EmptyString => String c EmptyString
      | String d t' =>
          if Ascii.eqb c backslash && Ascii.eqb d dquote
          then String d (unescape_quotes t')
          else String c (unescape_quotes t)
      end
  end.


(** ** The wait for a debugger, lines 458-480 *)

(** [uint32_t] arithmetic. *)
Definition uint32 (z : Z) : Z := z mod 2 ^ 32.

(** The loop of lines 465-474 from its [k]-th pass on, [timeout] being the
    sum so far and [bound] the value of [options.DelayForDebugger * 1000].
    [debugger j] is what the [j]-th call of [CheckRemoteDebuggerPresent]
    leaves in [debuggerAttached].  The result is [debuggerAttached],
    [timeout] and the number of passes (each one polls once and sleeps 10
    milliseconds); [None] when [fuel] passes were not enough. *)
Fixpoint debugger_wait_loop (debugger : nat -> bool) (bound : Z) (fuel : nat)
  (timeout : Z) (k : nat) : option (bool * Z * nat) :=
  match fuel with
  | O => None
  | S fuel' =>
      let debuggerAttached := debugger k in
      let timeout := uint32 (timeout + 10) in
      if timeout >? bound then Some (debuggerAttached, timeout, S k)
      else if debuggerAttached then Some (debuggerAttached, timeout, S k)
      else debugger_wait_loop debugger bound fuel' timeout (S k)
  end.

(** Lines 458-480: nothing is done when [DelayForDebugger] is 0. *)
Definition debugger_wait (debugger : nat -> bool) (DelayForDebugger : Z)
  : option (bool * Z * nat) :=
  if DelayForDebugger >? 0 then
    let bound := uint32 (DelayForDebugger * 1000) in
    debugger_wait_loop debugger bound (Z.to_nat (bound / 10 + 1)) 0 0
  else Some (false, 0, 0%nat).

(** ** Bounded copies of the C runtime *)

(** [wcscpy_s(dest, numberOfElements, src)]: [src] and its terminator must
    fit; otherwise the runtime reports an invalid parameter and the copy is
    not made ([None]). *)
Definition wcscpy_s (numberOfElements : nat) (src : string) : option string :=
  if (String.length src <? numberOfElements)%nat then Some src else None.

(** [wcscat_s(dest, numberOfElements, src)], likewise. *)
Definition wcscat_s (numberOfElements : nat) (dest src : string) : option string :=
  if (String.length dest + String.length src <? numberOfElements)%nat
  then Some (dest +:+ src) else None.

(** [_snwprintf_s(buffer, 2047, 2047, format, ...)] for the formatted
    [text]: it is stored when it fits with its terminator. *)
Definition _snwprintf_s (text : string) : option string :=
  if (String.length text <? 2047)%nat then Some text else None.

(** [wcsrchr(s, c)]: the offset of the last [c] in [s]. *)
Fixpoint wcsrchr (s : string) (c : ascii) : option nat :=
  match s with
  | EmptyString => None
  | String a t =>
      match wcsrchr t c with
      | Some i => Some (S i)
      | None => if Ascii.eqb a c then Some 0%nat else None
      end
  end.

(** [*p = 0] for [p] at offset [i] of the text in a buffer. *)
Definition terminate_at (i : nat) (buffer : string) : string :=
  String.substring 0 i buffer.

(** windef.h. *)
Definition MAX_PATH : nat := 260.

(** [p != NULL && p[0] != 0]. *)
Definition given (p : option string) : option string :=
  match p with
  | Some s => if empty s then None else Some s
  | None => None
  end.

(** A text between double quotes. *)
Definition in_quotes (s : string) : string :=
  String dquote (s +:+ String dquote EmptyString).

(** ** [RunProcess], lines 374-442 *)

(** Lines 398-423: the parameters written to the buffer of [len]
    elements. *)
Definition RunProcess_paramsAlloc (app : string) (cmdLine : option string)
  : option string :=
  let wapp := app in
  let len := (String.length wapp + 10)%nat in
  let len :=
    match given cmdLine with
    | Some wcmd => (len + String.length wcmd)%nat
    | None => len
    end in
  p ← wcscpy_s len (String dquote EmptyString);
  p ← wcscat_s len p wapp;
  p ← wcscat_s len p (String dquote EmptyString);
  match given cmdLine with
  | Some wcmd => p ← wcscat_s len p " "; wcscat_s len p wcmd
  | None => Some p
  end.

(** [RunProcess]: the process id of the [PROCESS_INFORMATION] returned.
    [dirname] is the function of string_utils.h, which is not under src/;
    [CreateProcessW] gives, for the parameters and the working directory,
    the id of the process created, or [None] when it fails (the structure
    is then erased). *)
Definition RunProcess (dirname : string -> string)
  (CreateProcessW : string -> string -> option Z)
  (app : string) (workingDir cmdLine : option string) : option Z :=
  let workdir :=
    match given workingDir with
    | Some w => w
    | None => dirname app
    end in
  paramsAlloc ← RunProcess_paramsAlloc app cmdLine;
  Some (default 0 (CreateProcessW paramsAlloc workdir)).

(** ** The helper executables *)

(** Lines 525-530: the path of the 32-bit helper, made in place in the
    buffer of [MAX_PATH] elements that holds the path of the library. *)
Definition x86_helper_path (renderdocPath : string) : option string :=
  let buffer :=
    match wcsrchr renderdocPath backslash with
    | Some slash => terminate_at slash renderdocPath
    | None => renderdocPath
    end in
  wcscat_s MAX_PATH buffer "\x86\renderdoccmd.exe".

(** [int] as [%d] prints the 32 bits of [pid]. *)
Definition int32 (z : Z) : Z :=
  if z mod 2 ^ 32 <? 2 ^ 31 then z mod 2 ^ 32 else z mod 2 ^ 32 - 2 ^ 32.

(** The format of lines 559-561. *)
Definition cap32for64_format (path : string) (pid : Z) (wlogfile optstr : string)
  : string :=
  in_quotes path +:+ " cap32for64 --pid=" +:+ pretty (int32 pid) +:+
  " --log=" +:+ in_quotes wlogfile +:+ " --capopts=" +:+ in_quotes optstr.

(** The format of lines 815-817 and 834-836. *)
Definition globalhook_format (path wpathmatch wlogfile optstr : string) : string :=
  in_quotes path +:+ " globalhook --match " +:+ in_quotes wpathmatch +:+
  " --log " +:+ in_quotes wlogfile +:+ " --capopts " +:+ in_quotes optstr.

(** [Process::StartGlobalHook], lines 773-848: the command lines handed to
    [CreateProcessW], in order.  [WIN64] is the build, [renderdocPath] what
    [GetModuleFileNameW] stored, and [CreateProcessW] tells whether the
    helper of a command line starts. *)
Definition StartGlobalHook (WIN64 : bool) (renderdocPath : string)
  (CreateProcessW : string -> bool)
  (pathmatch logfile : option string) (opts : option CaptureOptions)
  : option (list string) :=
  match pathmatch with
  | None => Some []
  | Some wpathmatch =>
      let slash :=
        match wcsrchr renderdocPath backslash with
        | Some i => i
        | None => String.length renderdocPath
        end in
      let buffer :=
        match wcsrchr renderdocPath backslash with
        | Some i => terminate_at i renderdocPath
        | None => renderdocPath
        end in
      buffer ← wcscat_s MAX_PATH buffer "\renderdoccmd.exe";
      b ← opts;
      let wlogfile := default EmptyString logfile in
      paramsAlloc ← _snwprintf_s (globalhook_format buffer wpathmatch wlogfile (optstr b));
      if negb (CreateProcessW paramsAlloc) then Some [paramsAlloc]
      else if negb WIN64 then Some [paramsAlloc]
      else
        let buffer := terminate_at slash buffer in
        buffer ← wcscat_s MAX_PATH buffer "\x86\renderdoccmd.exe";
        paramsAlloc' ←
          _snwprintf_s (globalhook_format buffer wpathmatch wlogfile (optstr b));
        Some [paramsAlloc; paramsAlloc']
  end.

(** ** [InjectDLL], lines 203-236, and [Process::InjectIntoProcess] as a whole *)

(** The handles of [InjectIntoProcess] and of what it calls. *)
Inductive InjectHandle :=
  | hTarget | hSelfProcess | hHelperProcess | hHelperThread | hLoaderThread.

Global Instance InjectHandle_eq_dec : EqDecision InjectHandle.
Proof. solve_decision. Defined.

Global Instance byte_eq_decision : EqDecision byte := Byte.byte_eq_dec.

Global Instance Payload_eq_dec : EqDecision Payload.
Proof. solve_decision. Defined.

Global Instance RemoteCall_eq_dec : EqDecision RemoteCall.
Proof. solve_decision. Defined.

(** The steps of an injection. *)
Inductive Step :=
  | sOpenProcess
  | sCheckRemoteDebuggerPresent
  | sSleep (ms : Z)
  | sIsWow64Process (h : InjectHandle)
  | sCreateProcessW (commandLine : string)
  | sResumeThread (h : InjectHandle)
  | sWaitForSingleObject (h : InjectHandle)
  | sGetExitCodeProcess
  | sCloseHandle (h : InjectHandle)
  | sVirtualAllocEx
  | sWriteProcessMemory
  | sCreateRemoteThread (entry : string)
  | sVirtualFreeEx
  | sFindRemoteDLL (calls : list Event)
  | sInjectFunctionCall (call : RemoteCall)
  | sRDCERR (what : string).

Global Instance Step_eq_dec : EqDecision Step.
Proof. solve_decision. Defined.

(** What [InjectDLL] meets: whether [kernel32.dll] has a handle, whether
    the memory is allocated in the target, and whether the thread is
    created. *)
Record Loader := mkLoader {
  kernel32 : bool;
  VirtualAllocEx_ok : bool;
  CreateRemoteThread_ok : bool
}.

(** [InjectDLL]: the steps made.  The library path is first copied into a
    local buffer of [MAX_PATH + 1] elements. *)
Definition InjectDLL (l : Loader) (libName : string) : option (list Step) :=
  dllPath ← wcscpy_s (MAX_PATH + 1) libName;
  if negb (kernel32 l) then Some [sRDCERR "Couldn't get handle for kernel32.dll"]
  else if negb (VirtualAllocEx_ok l)
  then Some [sVirtualAllocEx; sRDCERR "Couldn't allocate remote memory"]
  else
    Some ([sVirtualAllocEx; sWriteProcessMemory; sCreateRemoteThread "LoadLibraryW"] ++
          (if CreateRemoteThread_ok l
           then [sWaitForSingleObject hLoaderThread; sCloseHandle hLoaderThread]
           else []) ++
          [sVirtualFreeEx]).

(** What [InjectIntoProcess] meets: the build, the answers of
    [CheckRemoteDebuggerPresent], the path that [GetModuleFileNameW]
    stored, the two answers of [IsWow64Process] ([None]: the call failed),
    the exit code of the helper started with a command line ([None]: it
    did not start), what [InjectDLL] meets, the module snapshots of the
    target, and the state of the capture library in the target. *)
Record InjectOS := mkInjectOS {
  WIN64 : bool;
  debugger_present : nat -> bool;
  renderdocPath : string;
  IsWow64Process_target : option bool;
  IsWow64Process_self : option bool;
  CreateProcessW_helper : string -> option Z;
  loader : Loader;
  modules : Target;
  library : Process
}.

(** Lines 706-711. *)
Definition leave (waitForExit : bool) : list Step :=
  (if waitForExit then [sWaitForSingleObject hTarget] else []) ++ [sCloseHandle hTarget].

(** Lines 670-678: the calls before the environment edits. *)
Definition first_calls (logfile : option string) (opts : option CaptureOptions)
  : list RemoteCall :=
  (match logfile with
   | Some l => InjectFunctionCall "RENDERDOC_SetLogFile" (ofString l) (size_plus_1 l)
   | None => []
   end) ++
  (match opts with
   | Some o =>
       InjectFunctionCall "RENDERDOC_SetCaptureOptions" (ofCaptureOptions o) (length o)
   | None => []
   end).

(** Lines 656-711: the direct injection, after the steps [done].
    [RDOC_DLL_FILE] is the name the build gives the library.  The control
    identifier is what the target writes into the buffer of the
    [RENDERDOC_GetTargetControlIdent] call. *)
Definition inject_directly (os : InjectOS) (RDOC_DLL_FILE : string)
  (env : option (list EnvironmentModification)) (logfile : option string)
  (opts : option CaptureOptions) (waitForExit : bool) (done : list Step)
  : option (Z * list Step) :=
  load ← InjectDLL (loader os) (renderdocPath os);
  let '(loc, search) := FindRemoteDLL (modules os) (RDOC_DLL_FILE +:+ ".dll") in
  let done := done ++ load ++ [sFindRemoteDLL search] in
  if loc =? 0 then
    Some (0, done ++ [sRDCERR "Can't locate the library"] ++ leave waitForExit)
  else
    lib ← run_remote_calls (first_calls logfile opts) (library os);
    let controlident :=
      default 0 (RENDERDOC_GetTargetControlIdent (Some 0) lib).1 in
    edits ← env_calls env;
    Some (uint32 controlident,
          done ++
          (sInjectFunctionCall <$>
             first_calls logfile opts ++
             InjectFunctionCall "RENDERDOC_GetTargetControlIdent" (ofIdent 0) 4 ++
             edits) ++
          leave waitForExit).

(** Lines 522-653: the delegation to the 32-bit helper. *)
Definition delegate (os : InjectOS) (pid : Z)
  (env : option (list EnvironmentModification)) (logfile : option string)
  (opts : option CaptureOptions) (waitForExit : bool) (done : list Step)
  : option (Z * list Step) :=
  path ← x86_helper_path (renderdocPath os);
  b ← opts;
  paramsAlloc ←
    _snwprintf_s (cap32for64_format path pid (default EmptyString logfile) (optstr b));
  cmd ← commandLine paramsAlloc env;
  match CreateProcessW_helper os cmd with
  | None =>
      Some (0, done ++ [sCreateProcessW cmd; sRDCERR "Can't spawn x86 renderdoccmd"])
  | Some exitCode =>
      Some (uint32 exitCode,
            done ++
            [sCreateProcessW cmd; sResumeThread hHelperThread;
             sWaitForSingleObject hHelperThread; sCloseHandle hHelperThread;
             sGetExitCodeProcess; sCloseHandle hHelperProcess] ++
            leave waitForExit)
  end.

(** [Process::InjectIntoProcess], lines 444-712: the value returned and
    the steps made.  [DelayForDebugger] is that field of the local copy of
    the options. *)
Definition InjectIntoProcess (os : InjectOS) (RDOC_DLL_FILE : string) (pid : Z)
  (DelayForDebugger : Z) (env : option (list EnvironmentModification))
  (logfile : option string) (opts : option CaptureOptions) (waitForExit : bool)
  : option (Z * list Step) :=
  '(_, _, polls) ← debugger_wait (debugger_present os) DelayForDebugger;
  let done :=
    sOpenProcess ::
    concat (replicate polls [sCheckRemoteDebuggerPresent; sSleep 10]) ++
    [sIsWow64Process hTarget] in
  match IsWow64Process_target os with
  | None =>
      Some (0, done ++ [sRDCERR "Couldn't determine bitness of process";
                        sCloseHandle hTarget])
  | Some isWow64 =>
      if WIN64 os then
        if isWow64 then delegate os pid env logfile opts waitForExit done
        else inject_directly os RDOC_DLL_FILE env logfile opts waitForExit done
      else
        let done := done ++ [sIsWow64Process hSelfProcess; sCloseHandle hSelfProcess] in
        match IsWow64Process_self os with
        | None => Some (0, done ++ [sRDCERR "Couldn't determine bitness of self"])
        | Some selfWow64 =>
            if selfWow64 && negb isWow64 then
              Some (0, done ++ [sRDCERR "Can't capture x64 process with x86 renderdoc";
                                sCloseHandle hTarget])
            else inject_directly os RDOC_DLL_FILE env logfile opts waitForExit done
        end
  end.


(** How often a step occurs. *)
Definition step_count (s : Step) (steps : list Step) : nat :=
  count_occ Step_eq_dec steps s.

(** The branch that the answers of [IsWow64Process] select is the direct
    injection. *)
Definition injects_directly (os : InjectOS) : bool :=
  match IsWow64Process_target os with
  | Some isWow64 =>
      if WIN64 os then negb isWow64
      else
        match IsWow64Process_self os with
        | Some selfWow64 => negb (selfWow64 && negb isWow64)
        | None => false
        end
  | None => false
  end.

(** A 64-bit controller and a 64-bit target in which the library is loaded
    and holds the control identifier 38920. *)
Definition sample_os : InjectOS :=
  {| WIN64 := true;
     debugger_present := fun _ => false;
     renderdocPath := "C:\rd\renderdoc.dll";
     IsWow64Process_target := Some false;
     IsWow64Process_self := Some false;
     CreateProcessW_helper := fun _ => None;
     loader := {| kernel32 := true; VirtualAllocEx_ok := true; CreateRemoteThread_ok := true |};
     modules := three_modules_target;
     library :=
       {| environ := [("PATH", "C:\bin")];
          envCallbacks := [];
          tempEnvMod := no_edit;
          Inst := {| targetControlIdent := 38920; captureOptions := [];
                     logFile := EmptyString |} |} |}.

(** The caller's array holds an entry whose trimmed name is empty, or no
    array is given. *)
Definition has_terminator (env : option (list EnvironmentModification)) : bool :=
  match env with
  | None => true
  | Some entries => existsb (fun e => empty (trim (name e))) entries
  end.

(** ** The reader of the delegated command line *)

(** [n] backslashes. *)
Fixpoint backslashes (n : nat) : string :=
  match n with
  | O => EmptyString
  | S n' => String backslash (backslashes n')
  end.

(** The tabulator. *)
Definition tab : ascii := "009"%char.

(** The helper receives the command line as arguments split by the
    Microsoft runtime, which is not under src/.  Its loop over one
    argument, from the text at [p] with [numslash] backslashes counted and
    the flag [in_quotes], gives the characters copied to the argument and
    the text at which the argument ends.  The rule is the documented one:
    [2N] backslashes and a double quote give [N] backslashes and begin or
    end the quoted part; [2N + 1] backslashes and a double quote give [N]
    backslashes and a double quote; other backslashes are copied; a blank
    or tabulator outside a quoted part, or the end of the text, ends the
    argument.  Inside a quoted part, [2N] backslashes and two double
    quotes give [N] backslashes and one double quote, and here the readers
    differ: the C runtime stays in the quoted part since Visual C++ 2008;
    before that it left it, as [CommandLineToArgvW] does.  [leaves] tells
    which. *)
Fixpoint scan_argument (leaves : bool) (p : string) (numslash : nat) (in_quotes : bool)
  : string * string :=
  match p with
  | EmptyString => (backslashes numslash, EmptyString)
  | String c p' =>
      if Ascii.eqb c backslash then scan_argument leaves p' (S numslash) in_quotes
      else if Ascii.eqb c dquote then
        if Nat.even numslash then
          match p' with
          | String c' p'' =>
              if in_quotes && Ascii.eqb c' dquote then
                let '(args, rest) := scan_argument leaves p'' 0%nat (negb leaves) in
                (backslashes (numslash / 2)%nat +:+ String dquote args, rest)
              else
                let '(args, rest) := scan_argument leaves p' 0%nat (negb in_quotes) in
                (backslashes (numslash / 2)%nat +:+ args, rest)
          | EmptyString =>
              let '(args, rest) := scan_argument leaves p' 0%nat (negb in_quotes) in
              (backslashes (numslash / 2)%nat +:+ args, rest)
          end
        else
          let '(args, rest) := scan_argument leaves p' 0%nat in_quotes in
          (backslashes (numslash / 2)%nat +:+ String dquote args, rest)
      else if negb in_quotes && (Ascii.eqb c " "%char || Ascii.eqb c tab) then
        (backslashes numslash, p)
      else
        let '(args, rest) := scan_argument leaves p' 0%nat in_quotes in
        (backslashes numslash +:+ String c args, rest)
  end.

(** A backslash stands directly before a double quote somewhere in [s]. *)
Fixpoint backslash_before_quote (s : string) : bool :=
  match s with
  | EmptyString => false
  | String c t =>
      match t with
      | String d _ =>
          (Ascii.eqb c backslash && Ascii.eqb d dquote) || backslash_before_quote t
      | EmptyString => false
      end
  end.

(** The last two characters of [s] are backslashes. *)
Fixpoint ends_in_two_backslashes (s : string) : bool :=
  match s with
  | EmptyString => false
  | String c t =>
      match t with
      | String d EmptyString => Ascii.eqb c backslash && Ascii.eqb d backslash
      | _ => ends_in_two_backslashes t
      end
  end.

(** [s] without its last character when that is a double quote. *)
Fixpoint drop_last_quote (s : string) : string :=
  match s with
  | EmptyString => EmptyString
  | String c t =>
      match t with
      | EmptyString => if Ascii.eqb c dquote then EmptyString else s
      | String _ _ => String c (drop_last_quote t)
      end
  end.

(** What the reader needs of [s] behind [n] backslashes, by the characters
    of [s] in order: no backslash before a double quote, unless it is a
    single one before a last double quote and the reader [leaves]; at most
    one backslash at the end. *)
Fixpoint readable (leaves : bool) (n : nat) (s : string) : bool :=
  match s with
  | EmptyString => (n <=? 1)%nat
  | String c t =>
      if Ascii.eqb c backslash then readable leaves (S n) t
      else if Ascii.eqb c dquote then
        ((n =? 0)%nat && readable leaves 0%nat t) || (leaves && (n =? 1)%nat && empty t)
      else readable leaves 0%nat t
  end.

(** The backslash appended by lines 613-617 to the escaped text of [s]
    that stands behind [n] backslashes. *)
Fixpoint doubled (n : nat) (s : string) : string :=
  match s with
  | EmptyString => if (n =? 0)%nat then EmptyString else String backslash EmptyString
  | String c t => doubled (if Ascii.eqb c backslash then S n else 0%nat) t
  end.

(** The text that the reader meets from inside a parameter: the escaped
    text of [s], the backslash appended, the closing double quote, the
    blank of lines 619-620 and what follows. *)
Definition quoted_from (n : nat) (s rest : string) : string :=
  escape_quotes s +:+ doubled n s +:+ String dquote (String " "%char rest).

(** ** Text: lemmas *)

Section Text.

Lemma towlower_idemp c : towlower (towlower c) = towlower c.
Proof. destruct c as [[] [] [] [] [] [] [] []]; reflexivity. Qed.

Lemma towlower_equals c : towlower c = equals_sign -> c = equals_sign.
Proof. destruct c as [[] [] [] [] [] [] [] []]; (reflexivity || discriminate). Qed.

Lemma lowercase_idemp s : lowercase (lowercase s) = lowercase s.
Proof.
  induction s as [|c s IH]; simpl; [reflexivity|].
  now rewrite towlower_idemp, IH.
Qed.

Lemma lowercase_length s : String.length (lowercase s) = String.length s.
Proof. induction s; simpl; congruence. Qed.

Lemma lowercase_app s1 s2 : lowercase (s1 +:+ s2) = lowercase s1 +:+ lowercase s2.
Proof. induction s1; simpl; congruence. Qed.

Lemma lowercase_empty s : lowercase s = EmptyString -> s = EmptyString.
Proof. destruct s; [reflexivity | discriminate]. Qed.

Lemma append_assoc (s1 s2 s3 : string) : (s1 +:+ s2) +:+ s3 = s1 +:+ (s2 +:+ s3).
Proof. induction s1; simpl; congruence. Qed.

Lemma append_nil_r (s : string) : s +:+ EmptyString = s.
Proof. induction s; simpl; congruence. Qed.

Lemma append_length (s1 s2 : string) :
  String.length (s1 +:+ s2) = (String.length s1 + String.length s2)%nat.
Proof. induction s1; simpl; congruence. Qed.

Lemma empty_true s : empty s = true <-> s = EmptyString.
Proof. destruct s; simpl; split; congruence. Qed.

Lemma empty_false s : empty s = false <-> s <> EmptyString.
Proof. destruct s; simpl; split; congruence. Qed.

Lemma prefix_spec p s : String.prefix p s = true <-> exists r, s = p +:+ r.
Proof.
  revert s; induction p as [|c p IH]; intros s.
  - split; [intros _; exists s; reflexivity | intros _; destruct s; reflexivity].
  - destruct s as [|d s]; simpl.
    + split; [discriminate | intros [r Hr]; discriminate].
    + destruct (Ascii.ascii_dec c d) as [->|Hne].
      * rewrite IH. split; intros [r Hr]; exists r;
          [rewrite Hr; reflexivity | now inversion Hr].
      * split; [discriminate | intros [r Hr]; inversion Hr; congruence].
Qed.

Lemma wcsstr_unfold hay needle :
  wcsstr hay needle =
  if String.prefix needle hay then Some 0%nat
  else match hay with
       | EmptyString => None
       | String _ t => S <$> wcsstr t needle
       end.
Proof. destruct hay; reflexivity. Qed.

Lemma occurs_in_prefix needle hay :
  String.prefix needle hay = true -> occurs_in needle hay.
Proof.
  intros [r Hr]%prefix_spec. exists EmptyString, r. exact Hr.
Qed.

Lemma wcsstr_spec hay needle :
  is_Some (wcsstr hay needle) <-> occurs_in needle hay.
Proof.
  induction hay as [|c hay IH]; rewrite wcsstr_unfold;
    destruct (String.prefix needle _) eqn:Hp;
    try (split; [intros _; now apply occurs_in_prefix | eauto]).
  - split; [intros [x Hx]; discriminate |].
    intros ([|a l] & r & Hlr); [|discriminate].
    assert (String.prefix needle EmptyString = true) as Hq
      by (apply prefix_spec; eauto).
    congruence.
  - rewrite fmap_is_Some, IH. split.
    + intros (l & r & ->). exists (String c l), r. reflexivity.
    + intros ([|a l] & r & Hlr).
      * assert (String.prefix needle (String c hay) = true) as Hq
          by (apply prefix_spec; eauto).
        congruence.
      * exists l, r. simpl in Hlr. congruence.
Qed.

Lemma substring_all s n :
  (String.length s <= n)%nat -> String.substring 0 n s = s.
Proof.
  revert n; induction s as [|c s IH]; intros [|n] Hn; simpl in *;
    try reflexivity; try lia.
  rewrite IH by lia. reflexivity.
Qed.

Lemma wcschr_split_app n v :
  no_equals n = true ->
  wcschr_split equals_sign (n +:+ String equals_sign v) = Some (n, v).
Proof.
  induction n as [|c n IH]; simpl; intros Hn.
  - reflexivity.
  - apply andb_true_iff in Hn as [Hc Hn].
    apply negb_true_iff in Hc. rewrite Hc, (IH Hn). reflexivity.
Qed.

Lemma wcschr_split_total n v :
  is_Some (wcschr_split equals_sign (n +:+ String equals_sign v)).
Proof.
  induction n as [|c n [x Hx]]; simpl.
  - eauto.
  - destruct (Ascii.eqb c equals_sign); [eauto|].
    rewrite Hx. destruct x. simpl. eauto.
Qed.

Lemma back_is_Some s : s <> EmptyString -> is_Some (back s).
Proof.
  induction s as [|c s IH]; [congruence|]. intros _.
  destruct s as [|d s]; simpl; [eauto|]. apply IH. discriminate.
Qed.

End Text.
(** ** The deferred environment edits: lemmas *)

Section Environment.

Implicit Types (env : Environment) (cur ret : gmap string string).
Implicit Types (m : EnvironmentModification) (p : Process).

Lemma entry_not_empty n v : empty (n +:+ String equals_sign v) = false.
Proof. destruct n; reflexivity. Qed.

(** The map is built for every live environment. *)
Lemma EnvStringToEnvMap_from_total env ret :
  is_Some (EnvStringToEnvMap_from (GetEnvironmentStringsW env) ret).
Proof.
  revert ret; induction env as [|[n v] env IH]; intros ret; simpl.
  - eauto.
  - rewrite entry_not_empty.
    destruct (wcschr_split_total n v) as [[n' v'] ->]. simpl. apply IH.
Qed.

Lemma EnvStringToEnvMap_total env :
  is_Some (EnvStringToEnvMap (GetEnvironmentStringsW env)).
Proof. apply EnvStringToEnvMap_from_total. Qed.

(** The name under which the entry of a block name is stored. *)
Lemma block_entry_split n v :
  block_name n = true ->
  exists n' v',
    wcschr_split equals_sign (n +:+ String equals_sign v) = Some (n', v') /\
    (plain_name n = true -> n' = n /\ v' = v) /\
    (plain_name n = false -> n' = EmptyString).
Proof.
  destruct n as [|c t]; simpl; intros Hn.
  - exists EmptyString, v. repeat split; congruence.
  - destruct (Ascii.eqb c equals_sign) eqn:Hc; simpl.
    + eexists _, _. split; [reflexivity|]. split; congruence.
    + rewrite (wcschr_split_app t v Hn). simpl.
      eexists _, _. split; [reflexivity|]. split; [auto | congruence].
Qed.

Lemma plain_name_lowercase n n' :
  lowercase n = lowercase n' -> plain_name n' = true -> plain_name n = true.
Proof.
  destruct n as [|c t], n' as [|c' t']; simpl; try congruence.
  intros [= Hc _] Hp. apply negb_true_iff in Hp. apply negb_true_iff.
  apply Ascii.eqb_neq in Hp. apply Ascii.eqb_neq. intros ->.
  apply Hp. symmetry in Hc. now apply towlower_equals in Hc.
Qed.

Lemma GetEnvironmentVariableW_None n env :
  lowercase n ∉ lowercase <$> env.*1 -> GetEnvironmentVariableW n env = None.
Proof.
  induction env as [|[n' v'] env IH]; simpl; [reflexivity|].
  rewrite not_elem_of_cons. intros [Hne Hnin].
  destruct (String.eqb_spec (lowercase n') (lowercase n)); [congruence|].
  now apply IH.
Qed.

(** The map built from the live environment answers, for a plain name,
    as the case-insensitive lookup of the system does. *)
Lemma EnvStringToEnvMap_from_lookup env ret cur n :
  wf_environ env -> plain_name n = true ->
  EnvStringToEnvMap_from (GetEnvironmentStringsW env) ret = Some cur ->
  cur !! lowercase n =
  match GetEnvironmentVariableW n env with
  | Some v => Some v
  | None => ret !! lowercase n
  end.
Proof.
  intros [Hnames Hdup] Hn. revert ret Hnames Hdup.
  induction env as [|[n' v'] env IH]; intros ret Hnames Hdup; simpl.
  - now intros [= ->].
  - rewrite entry_not_empty.
    apply Forall_cons in Hnames as [Hn' Hnames].
    simpl in Hdup. apply NoDup_cons in Hdup as [Hnin Hdup].
    destruct (block_entry_split n' v' Hn') as (k & w & -> & Hplain & Hhidden).
    simpl. intros Hcur. rewrite (IH _ Hnames Hdup Hcur).
    destruct (String.eqb_spec (lowercase n') (lowercase n)) as [Heq|Hne].
    + destruct (Hplain (plain_name_lowercase _ _ Heq Hn)) as [-> ->].
      rewrite GetEnvironmentVariableW_None by (rewrite <- Heq; exact Hnin).
      rewrite Heq. apply lookup_insert_eq.
    + destruct (GetEnvironmentVariableW n env); [reflexivity|].
      apply lookup_insert_ne.
      destruct (plain_name n') eqn:Hp.
      * destruct (Hplain eq_refl) as [-> _]. exact Hne.
      * rewrite (Hhidden eq_refl). simpl. intros Heq. symmetry in Heq.
        apply lowercase_empty in Heq. subst n. discriminate.
Qed.

Lemma EnvStringToEnvMap_lookup env cur n :
  wf_environ env -> plain_name n = true ->
  EnvStringToEnvMap (GetEnvironmentStringsW env) = Some cur ->
  cur !! lowercase n = GetEnvironmentVariableW n env.
Proof.
  intros Hwf Hn Hcur.
  rewrite (EnvStringToEnvMap_from_lookup _ _ _ _ Hwf Hn Hcur).
  destruct (GetEnvironmentVariableW n env); [reflexivity | apply lookup_empty].
Qed.



Lemma modification_call_hit cur m v :
  cur !! lowercase (name m) = Some v ->
  modification_call cur m =
  (lowercase (name m), modified_value (type m) v (value m)).
Proof. unfold modification_call. now intros ->. Qed.


(** The loop makes one call for each pending edit, in order, each computed
    from the map built before the loop. *)
Lemma apply_loop_calls cur mods env :
  (apply_loop cur mods env).1 = modification_call cur <$> mods.
Proof.
  revert env; induction mods as [|m mods IH]; intros env; simpl; [reflexivity|].
  specialize (IH (SetEnvironmentVariableW (modification_call cur m).1
                    (modification_call cur m).2 env)).
  destruct (apply_loop cur mods _). simpl in *. now rewrite IH.
Qed.

Lemma apply_loop_environ cur mods env :
  (apply_loop cur mods env).2 =
  foldl (fun e call => SetEnvironmentVariableW call.1 call.2 e) env
    (modification_call cur <$> mods).
Proof.
  revert env; induction mods as [|m mods IH]; intros env; simpl; [reflexivity|].
  specialize (IH (SetEnvironmentVariableW (modification_call cur m).1
                    (modification_call cur m).2 env)).
  destruct (apply_loop cur mods _). simpl in *. now rewrite IH.
Qed.

Lemma ApplyEnvironmentModification_unfold p cur :
  EnvStringToEnvMap (GetEnvironmentStringsW (environ p)) = Some cur ->
  ApplyEnvironmentModification p =
  Some (modification_call cur <$> envCallbacks p,
        {| environ :=
             foldl (fun e call => SetEnvironmentVariableW call.1 call.2 e)
               (environ p) (modification_call cur <$> envCallbacks p);
           envCallbacks := [];
           tempEnvMod := tempEnvMod p;
           Inst := Inst p |}).
Proof.
  intros Hcur. unfold ApplyEnvironmentModification. rewrite Hcur. simpl.
  pose proof (apply_loop_calls cur (envCallbacks p) (environ p)) as Hcalls.
  pose proof (apply_loop_environ cur (envCallbacks p) (environ p)) as Henv.
  destruct (apply_loop cur (envCallbacks p) (environ p)) as [calls env'].
  simpl in *. now subst.
Qed.

(** The value computed for each kind, in terms of the starting value. *)
Lemma modified_value_spec t existing mvalue :
  modified_value t existing mvalue =
  match t with
  | eEnvModification_Replace => mvalue
  | eEnvModification_Append => existing +:+ mvalue
  | eEnvModification_Prepend => mvalue +:+ existing
  | eEnvModification_AppendColon =>
      if decide (existing = EmptyString) then mvalue
      else existing +:+ ":" +:+ mvalue
  | eEnvModification_AppendSemiColon | eEnvModification_AppendPlatform =>
      if decide (existing = EmptyString) then mvalue
      else existing +:+ ";" +:+ mvalue
  | eEnvModification_PrependColon =>
      if decide (existing = EmptyString) then mvalue
      else mvalue +:+ ":" +:+ existing
  | eEnvModification_PrependSemiColon | eEnvModification_PrependPlatform =>
      if decide (existing = EmptyString) then mvalue
      else mvalue +:+ ";" +:+ existing
  end.
Proof.
  destruct t; simpl; try reflexivity;
    destruct existing; simpl; try reflexivity;
    now rewrite ?append_assoc.
Qed.

End Environment.

(** ** The deferred environment edits: the claims *)

Section DeferredEdits.

Implicit Types (env : Environment) (cur : gmap string string).
Implicit Types (m : EnvironmentModification) (p : Process).

(** What the entry points do with a pointer that is not null. *)
Lemma RENDERDOC_EnvMod_registers ty p :
  envCallbacks (RENDERDOC_EnvMod (Some ty) p) =
  envCallbacks p ++
    [{| type := ty; name := name (tempEnvMod p); value := value (tempEnvMod p) |}].
Proof. reflexivity. Qed.

Lemma send_edit_registers m p :
  envCallbacks (send_edit m p) = envCallbacks p ++ [m] /\
  environ (send_edit m p) = environ p.
Proof. destruct m; split; reflexivity. Qed.

Lemma RENDERDOC_GetTargetControlIdent_writes old p :
  RENDERDOC_GetTargetControlIdent (Some old) p =
  (Some (targetControlIdent (Inst p)), p).
Proof. reflexivity. Qed.

Lemma S3_process_pending env :
  envCallbacks (S3_process env) = S3_edits /\ environ (S3_process env) = env.
Proof. split; reflexivity. Qed.

(** C1 (counterexample).  Scenario S3 as the claim states it: the edits
    [X a Replace] and [X b Append] are applied in order to a process
    that has no variable [X].  The live variable is then [b], not [ab]:
    the second edit starts from the map built before the loop, in which
    [X] is still absent. *)
Lemma C1_S3_gives_b_not_ab :
  variable_after_apply "X" (S3_process []) = Some "b" /\
  variable_after_apply "X" (S3_process []) <> Some "ab".
Proof. split; [vm_compute; reflexivity | vm_compute; discriminate]. Qed.

(** C1 (amended).  [ApplyEnvironmentModification] makes one
    [SetEnvironmentVariableW] call for each pending edit, in order, and
    each call is computed from the map built once before the loop.  The
    value passed depends on the kind: Replace gives the edit value;
    Append and Prepend concatenate with the starting value
    unconditionally; the Colon, Semicolon and Platform kinds put their
    separator between the two only when the starting value is not empty;
    with an empty starting value every kind gives the edit value alone.
    The starting value is the one the variable had when the call began,
    also for a variable that an earlier edit of the same call has set: the
    edits of S3 leave [X=b] when [X] was not set, and [X=vb] when [X]
    held [v]. *)
Theorem C1_value_by_kind_from_initial_map :
  (forall p, exists cur p',
      EnvStringToEnvMap (GetEnvironmentStringsW (environ p)) = Some cur /\
      ApplyEnvironmentModification p =
      Some (modification_call cur <$> envCallbacks p, p')) /\
  (forall cur m,
      let existing := default EmptyString (cur !! lowercase (name m)) in
      (modification_call cur m).2 =
      match type m with
      | eEnvModification_Replace => value m
      | eEnvModification_Append => existing +:+ value m
      | eEnvModification_Prepend => value m +:+ existing
      | eEnvModification_AppendColon =>
          if decide (existing = EmptyString) then value m
          else existing +:+ ":" +:+ value m
      | eEnvModification_AppendSemiColon | eEnvModification_AppendPlatform =>
          if decide (existing = EmptyString) then value m
          else existing +:+ ";" +:+ value m
      | eEnvModification_PrependColon =>
          if decide (existing = EmptyString) then value m
          else value m +:+ ":" +:+ existing
      | eEnvModification_PrependSemiColon | eEnvModification_PrependPlatform =>
          if decide (existing = EmptyString) then value m
          else value m +:+ ";" +:+ existing
      end) /\
  (forall t mvalue, modified_value t EmptyString mvalue = mvalue) /\
  variable_after_apply "X" (S3_process []) = Some "b" /\
  (forall v, variable_after_apply "X" (S3_process [("X", v)]) = Some (v +:+ "b")).
Proof.
  split; [|split; [|split; [|split]]].
  - intros p. destruct (EnvStringToEnvMap_total (environ p)) as [cur Hcur].
    exists cur. eexists. split; [exact Hcur|].
    apply ApplyEnvironmentModification_unfold, Hcur.
  - intros cur m existing. subst existing. unfold modification_call.
    destruct (cur !! lowercase (name m)) as [v|]; simpl;
      apply modified_value_spec.
  - intros t mvalue. destruct t; simpl; try reflexivity; apply append_nil_r.
  - vm_compute. reflexivity.
  - intros v. unfold variable_after_apply.
    assert (EnvStringToEnvMap (GetEnvironmentStringsW (environ (S3_process [("X", v)])))
            = Some (<["x" := v]> ∅)) as Hcur by reflexivity.
    rewrite (ApplyEnvironmentModification_unfold _ _ Hcur).
    change (envCallbacks (S3_process [("X", v)])) with S3_edits.
    change (environ (S3_process [("X", v)])) with [("X", v)].
    unfold S3_edits. cbn [fmap list_fmap].
    rewrite !(modification_call_hit _ _ v) by apply lookup_insert_eq.
    reflexivity.
Qed.



(** C3.  Every call of [ApplyEnvironmentModification] returns, and leaves
    the pending list empty; a second call right after it makes no
    [SetEnvironmentVariableW] call and leaves the process as it is. *)
Theorem C3_apply_clears_pending_then_is_noop :
  forall p, exists calls p',
    ApplyEnvironmentModification p = Some (calls, p') /\
    envCallbacks p' = [] /\
    ApplyEnvironmentModification p' = Some ([], p').
Proof.
  intros p. destruct (EnvStringToEnvMap_total (environ p)) as [cur Hcur].
  eexists _, _. split; [apply ApplyEnvironmentModification_unfold, Hcur|].
  split; [reflexivity|].
  match goal with |- ApplyEnvironmentModification ?q = _ =>
    destruct (EnvStringToEnvMap_total (environ q)) as [cur' Hcur'];
    rewrite (ApplyEnvironmentModification_unfold q cur' Hcur')
  end.
  reflexivity.
Qed.

(** C9.  Each of the six exported entry points that reads its argument
    tests the pointer first: with a null pointer nothing is written to
    the caller's buffer and the process, with its staging record and its
    pending list, is unchanged. *)
Theorem C9_null_argument_is_noop :
  forall p,
    RENDERDOC_GetTargetControlIdent None p = (None, p) /\
    RENDERDOC_SetCaptureOptions None p = p /\
    RENDERDOC_SetLogFile None p = p /\
    RENDERDOC_EnvModName None p = p /\
    RENDERDOC_EnvModValue None p = p /\
    RENDERDOC_EnvMod None p = p.
Proof. intros p. repeat split. Qed.

End DeferredEdits.

(** ** The module locator: lemmas and claims *)

Section Locator.

Implicit Types (t : Target) (m : MODULEENTRY32) (mods : list MODULEENTRY32).

Lemma bad_length_step t i k :
  bad_length t i (S k) ->
  snapshot_attempt t i = INVALID_HANDLE_VALUE ERROR_BAD_LENGTH /\
  bad_length t (S i) k.
Proof.
  intros H. split.
  - rewrite <- (Nat.add_0_r i). apply H. lia.
  - intros j Hj. replace (S i + j)%nat with (i + S j)%nat by lia. apply H. lia.
Qed.

(** The snapshot arrives at the pass of index [k]. *)
Lemma snapshot_loop_success t remaining i k mods :
  (k < remaining)%nat -> bad_length t i k ->
  snapshot_attempt t (i + k) = SnapshotOf mods ->
  snapshot_loop t remaining i =
  (Some mods, repeat_failed k ++ [CreateToolhelp32Snapshot]).
Proof.
  revert remaining i; induction k as [|k IH]; intros [|remaining] i Hk Hbad Hok;
    try lia; simpl.
  - rewrite Nat.add_0_r in Hok. now rewrite Hok.
  - apply bad_length_step in Hbad as [Hi Hbad]. rewrite Hi. simpl.
    rewrite (IH remaining (S i)); [reflexivity | lia | exact Hbad |].
    now replace (S i + k)%nat with (i + S k)%nat by lia.
Qed.

(** Another error at the pass of index [k] ends the loop. *)
Lemma snapshot_loop_other_error t remaining i k err :
  (k < remaining)%nat -> bad_length t i k ->
  snapshot_attempt t (i + k) = INVALID_HANDLE_VALUE err ->
  err <> ERROR_BAD_LENGTH ->
  snapshot_loop t remaining i = (None, repeat_failed k ++ failed_attempt).
Proof.
  revert remaining i; induction k as [|k IH]; intros [|remaining] i Hk Hbad Herr Hne;
    try lia; simpl.
  - rewrite Nat.add_0_r in Herr. rewrite Herr.
    now destruct (Z.eqb_spec err ERROR_BAD_LENGTH).
  - apply bad_length_step in Hbad as [Hi Hbad]. rewrite Hi. simpl.
    rewrite (IH remaining (S i)); [reflexivity | lia | exact Hbad | | exact Hne].
    now replace (S i + k)%nat with (i + S k)%nat by lia.
Qed.

(** The transient error at every pass. *)
Lemma snapshot_loop_exhausted t remaining i :
  bad_length t i remaining ->
  snapshot_loop t remaining i = (None, repeat_failed remaining).
Proof.
  revert i; induction remaining as [|remaining IH]; intros i Hbad; simpl.
  - reflexivity.
  - apply bad_length_step in Hbad as [Hi Hbad]. rewrite Hi. simpl.
    now rewrite (IH (S i) Hbad).
Qed.

Lemma attempts_made_app l1 l2 :
  attempts_made (l1 ++ l2) = (attempts_made l1 + attempts_made l2)%nat.
Proof. apply count_occ_app. Qed.

Lemma attempts_made_repeat_failed k : attempts_made (repeat_failed k) = k.
Proof.
  induction k as [|k IH]; [reflexivity|].
  change (repeat_failed (S k)) with (failed_attempt ++ repeat_failed k).
  rewrite attempts_made_app, IH. reflexivity.
Qed.

Lemma FindRemoteDLL_no_snapshot t libName calls :
  snapshot_loop t 10 0 = (None, calls) ->
  FindRemoteDLL t libName = (0, calls ++ [RDCERR "Couldn't create toolhelp dump"]).
Proof. unfold FindRemoteDLL. now intros ->. Qed.

(** The match on the lowered copy is the containment of the lowered
    names. *)
Lemma wcsstr_modnameLower libName m :
  name_fits m ->
  is_Some (wcsstr (modnameLower m) (strlower libName)) <-> name_matches libName m.
Proof.
  intros Hfit. unfold modnameLower, wcsncpy_s, strlower, name_matches.
  rewrite (substring_all _ _ Hfit). apply wcsstr_spec.
Qed.

Lemma module_loop_no_match lib me32 rest n :
  Forall (fun x => wcsstr (modnameLower x) lib = None) (me32 :: rest) ->
  (module_loop lib me32 rest n).1 = 0.
Proof.
  revert me32 n; induction rest as [|next rest IH]; intros me32 n Hall;
    apply Forall_cons in Hall as [Hme Hall]; simpl; rewrite Hme; simpl.
  - reflexivity.
  - apply IH, Hall.
Qed.

Lemma module_loop_first_match lib pre m post me32 rest n :
  me32 :: rest = pre ++ m :: post ->
  Forall (fun x => wcsstr (modnameLower x) lib = None) pre ->
  is_Some (wcsstr (modnameLower m) lib) ->
  modBaseAddr m <> 0 ->
  (module_loop lib me32 rest n).1 = modBaseAddr m.
Proof.
  revert me32 rest n; induction pre as [|x pre IH]; intros me32 rest n Heq Hpre [o Hm] Hbase.
  - simpl in Heq. injection Heq as -> ->.
    destruct post as [|y post]; simpl; rewrite Hm;
      destruct (Z.eqb_spec (modBaseAddr m) 0); (congruence || reflexivity).
  - simpl in Heq. injection Heq as -> ->.
    apply Forall_cons in Hpre as [Hx Hpre].
    destruct pre as [|y pre]; simpl; rewrite Hx; simpl;
      eapply IH; eauto.
Qed.

Lemma wcsstr_None_not_occurs hay needle :
  wcsstr hay needle = None -> ~ occurs_in needle hay.
Proof.
  intros Hnone Hocc. apply wcsstr_spec in Hocc as [x Hx]. congruence.
Qed.

Lemma not_matches_None libName m :
  name_fits m -> ~ name_matches libName m ->
  wcsstr (modnameLower m) (strlower libName) = None.
Proof.
  intros Hfit Hno.
  destruct (wcsstr (modnameLower m) (strlower libName)) eqn:Hw; [|reflexivity].
  exfalso. apply Hno, (wcsstr_modnameLower libName m Hfit). eauto.
Qed.

Lemma attempts_made_liveness_probe t : attempts_made (liveness_probe t) = 0%nat.
Proof.
  unfold liveness_probe. destruct (liveness t) as [c|]; [|reflexivity].
  destruct (c =? STILL_ACTIVE); reflexivity.
Qed.

Lemma attempts_made_other e l :
  e <> CreateToolhelp32Snapshot -> attempts_made (e :: l) = attempts_made l.
Proof. intros He. now apply count_occ_cons_neq. Qed.

Ltac count_attempts :=
  repeat first
    [ rewrite attempts_made_app
    | rewrite attempts_made_liveness_probe
    | rewrite attempts_made_other by discriminate
    | change (attempts_made []) with 0%nat ];
  lia.

(** Snapshots are only asked for in the loop. *)
Lemma FindRemoteDLL_attempts t libName :
  attempts_made (FindRemoteDLL t libName).2 =
  attempts_made (snapshot_loop t 10 0).2.
Proof.
  unfold FindRemoteDLL. destruct (snapshot_loop t 10 0) as [[[|me32 rest]|] calls];
    simpl.
  - count_attempts.
  - destruct (module_loop (strlower libName) me32 rest 0) as [ret n]. simpl.
    destruct (ret =? 0); count_attempts.
  - count_attempts.
Qed.

(** C5.  Once a snapshot is held, each module's name is lowered and
    searched for the lowered query as a substring, and the base address
    of the first module that matches is returned; 0 is returned when no
    module matches.  (Names fit the [szModule] array, and a loaded module
    has a base address that is not null.)  Asked for [lib.dll] with a
    snapshot of the one module [LIB.DLL] at 0x10000000, the function
    returns 0x10000000. *)
Theorem C5_first_matching_module_base :
  (forall t libName mods,
      (snapshot_loop t 10 0).1 = Some mods ->
      Forall name_fits mods ->
      (forall pre m post,
          mods = pre ++ m :: post ->
          Forall (fun x => ~ name_matches libName x) pre ->
          name_matches libName m ->
          modBaseAddr m <> 0 ->
          (FindRemoteDLL t libName).1 = modBaseAddr m) /\
      (Forall (fun x => ~ name_matches libName x) mods ->
       (FindRemoteDLL t libName).1 = 0)) /\
  (forall live, (FindRemoteDLL (S5_target live) "lib.dll").1 = 0x10000000).
Proof.
  split; [|reflexivity].
  intros t libName mods Hsnap Hfit. unfold FindRemoteDLL.
  destruct (snapshot_loop t 10 0) as [snap calls]. simpl in Hsnap. subst snap.
  split.
  - intros pre m post -> Hpre Hm Hbase.
    assert (Forall (fun x => wcsstr (modnameLower x) (strlower libName) = None) pre)
      as Hnone.
    { apply Forall_app in Hfit as [Hfit _]. rewrite Forall_forall in Hpre, Hfit.
      apply Forall_forall. intros x Hx. apply not_matches_None; auto. }
    assert (is_Some (wcsstr (modnameLower m) (strlower libName))) as Hsome.
    { apply wcsstr_modnameLower; [|exact Hm].
      apply Forall_app in Hfit as [_ Hfit]. now apply Forall_cons in Hfit as [? _]. }
    destruct (pre ++ m :: post) as [|me32 rest] eqn:Heq.
    { now destruct pre. }
    pose proof (module_loop_first_match (strlower libName) pre m post me32 rest 0%nat
                  (eq_sym Heq) Hnone Hsome Hbase) as Hloop.
    destruct (module_loop (strlower libName) me32 rest 0). exact Hloop.
  - intros Hno. destruct mods as [|me32 rest]; [reflexivity|].
    assert (Forall (fun x => wcsstr (modnameLower x) (strlower libName) = None)
              (me32 :: rest)) as Hnone.
    { rewrite Forall_forall in Hno, Hfit. apply Forall_forall.
      intros x Hx. apply not_matches_None; auto. }
    pose proof (module_loop_no_match (strlower libName) me32 rest 0%nat Hnone) as Hloop.
    destruct (module_loop (strlower libName) me32 rest 0). exact Hloop.
Qed.

(** C5 at the snapshot [ntdll.dll], [RenderDoc.DLL], [renderdoc.dll] and
    the query [RENDERDOC.dll]: the base of the second module. *)
Lemma C5_first_matching_module_base_witness :
  (FindRemoteDLL three_modules_target "RENDERDOC.dll").1 = 0x10000000.
Proof.
  destruct C5_first_matching_module_base as [Hgen _].
  destruct (Hgen three_modules_target "RENDERDOC.dll"
              [mkModule "ntdll.dll" 0x77000000;
               mkModule "RenderDoc.DLL" 0x10000000;
               mkModule "renderdoc.dll" 0x20000000]) as [Hfirst _].
  - reflexivity.
  - repeat constructor; unfold name_fits, MAX_MODULE_NAME32; simpl; lia.
  - apply (Hfirst [mkModule "ntdll.dll" 0x77000000]
                  (mkModule "RenderDoc.DLL" 0x10000000)
                  [mkModule "renderdoc.dll" 0x20000000]).
    + reflexivity.
    + repeat constructor. apply wcsstr_None_not_occurs. reflexivity.
    + exists EmptyString, EmptyString. reflexivity.
    + discriminate.
Defined.

(** C7.  A snapshot call is repeated only after it failed with
    [ERROR_BAD_LENGTH], and nothing is called between the failed pass and
    the next one: a snapshot given at the pass of index [k] is used; any
    other error at that pass ends the loop after [k + 1] calls and the
    function returns 0; with the transient error at every pass there are
    ten calls, the first and nine more, and the function returns 0. *)
Theorem C7_retry_only_on_bad_length :
  forall t libName,
    (forall k mods,
        (k < 10)%nat -> bad_length t 0 k ->
        snapshot_attempt t k = SnapshotOf mods ->
        snapshot_loop t 10 0 =
          (Some mods, repeat_failed k ++ [CreateToolhelp32Snapshot]) /\
        attempts_made (FindRemoteDLL t libName).2 = S k) /\
    (forall k err,
        (k < 10)%nat -> bad_length t 0 k ->
        snapshot_attempt t k = INVALID_HANDLE_VALUE err ->
        err <> ERROR_BAD_LENGTH ->
        snapshot_loop t 10 0 = (None, repeat_failed k ++ failed_attempt) /\
        attempts_made (FindRemoteDLL t libName).2 = S k /\
        (FindRemoteDLL t libName).1 = 0) /\
    (bad_length t 0 10 ->
        snapshot_loop t 10 0 = (None, repeat_failed 10) /\
        attempts_made (FindRemoteDLL t libName).2 = 10%nat /\
        (FindRemoteDLL t libName).1 = 0).
Proof.
  intros t libName. split; [|split].
  - intros k mods Hk Hbad Hok.
    pose proof (snapshot_loop_success t 10 0 k mods Hk Hbad Hok) as Hloop.
    split; [exact Hloop|].
    rewrite FindRemoteDLL_attempts, Hloop. cbn [snd].
    rewrite attempts_made_app, attempts_made_repeat_failed.
    change (attempts_made [CreateToolhelp32Snapshot]) with 1%nat. lia.
  - intros k err Hk Hbad Herr Hne.
    pose proof (snapshot_loop_other_error t 10 0 k err Hk Hbad Herr Hne) as Hloop.
    split; [exact Hloop|]. split.
    + rewrite FindRemoteDLL_attempts, Hloop. cbn [snd].
      rewrite attempts_made_app, attempts_made_repeat_failed.
      change (attempts_made failed_attempt) with 1%nat. lia.
    + now rewrite (FindRemoteDLL_no_snapshot _ _ _ Hloop).
  - intros Hbad.
    pose proof (snapshot_loop_exhausted t 10 0 Hbad) as Hloop.
    split; [exact Hloop|]. split.
    + rewrite FindRemoteDLL_attempts, Hloop. reflexivity.
    + now rewrite (FindRemoteDLL_no_snapshot _ _ _ Hloop).
Qed.

(** C7 at a target whose first three snapshot calls fail with
    [ERROR_BAD_LENGTH] and whose fourth fails with error 5: four calls,
    and 0 is returned. *)
Lemma C7_retry_only_on_bad_length_witness :
  attempts_made (FindRemoteDLL denied_target "renderdoc.dll").2 = 4%nat /\
  (FindRemoteDLL denied_target "renderdoc.dll").1 = 0.
Proof.
  destruct (C7_retry_only_on_bad_length denied_target "renderdoc.dll")
    as (_ & Hother & _).
  destruct (Hother 3%nat 5) as (_ & Hcalls & Hret).
  - lia.
  - intros j Hj. destruct j as [|[|[|j]]]; [reflexivity..| lia].
  - reflexivity.
  - discriminate.
  - split; [exact Hcalls | exact Hret].
Defined.

End Locator.

(** ** Injection: lemmas and claims *)

Section Injection.

Implicit Types (e : EnvironmentModification) (s : string).
Implicit Types (pre post : list EnvironmentModification).

(** *** The capture options on the command line *)

Lemma optstr_byte_nibbles b :
  optstr_byte b =
  String (char_a_plus (Byte.to_N b / 16))
    (String (char_a_plus (Byte.to_N b mod 16)) EmptyString).
Proof. destruct b; reflexivity. Qed.

Lemma char_a_plus_code b :
  N_of_ascii (char_a_plus (Byte.to_N b / 16)) = (97 + Byte.to_N b / 16)%N /\
  N_of_ascii (char_a_plus (Byte.to_N b mod 16)) = (97 + Byte.to_N b mod 16)%N.
Proof. destruct b; split; reflexivity. Qed.

Lemma decode_optstr_byte b s : decode (optstr_byte b +:+ s) = b :: decode s.
Proof. destruct b; reflexivity. Qed.

Lemma decode_optstr B : decode (optstr B) = B.
Proof.
  induction B as [|b B IH]; [reflexivity|].
  cbn [optstr]. now rewrite decode_optstr_byte, IH.
Qed.

Lemma optstr_length B : String.length (optstr B) = (2 * length B)%nat.
Proof.
  induction B as [|b B IH]; [reflexivity|].
  cbn [optstr]. rewrite optstr_byte_nibbles. simpl. rewrite IH. lia.
Qed.

(** C4.  The options are written as two characters for each byte: the
    character [a] plus the high nibble, then [a] plus the low nibble, both
    among the letters [a] to [p]; the text has twice as many characters as
    the blob has bytes; the bytes 0x00 0xFF 0x10 give [aappba]; decoding
    the text gives the blob back, so that two blobs with the same text are
    equal. *)
Theorem C4_optstr_two_letters_per_byte :
  (forall b B,
      optstr (b :: B) =
      String (char_a_plus (Byte.to_N b / 16))
        (String (char_a_plus (Byte.to_N b mod 16)) (optstr B))) /\
  (forall b,
      N_of_ascii (char_a_plus (Byte.to_N b / 16)) = (97 + Byte.to_N b / 16)%N /\
      N_of_ascii (char_a_plus (Byte.to_N b mod 16)) = (97 + Byte.to_N b mod 16)%N) /\
  (forall B, String.length (optstr B) = (2 * length B)%nat) /\
  optstr [x00; xff; x10] = "aappba" /\
  (forall B, decode (optstr B) = B) /\
  (forall B B', optstr B = optstr B' -> B = B').
Proof.
  repeat split.
  - intros b B. cbn [optstr]. now rewrite optstr_byte_nibbles.
  - apply char_a_plus_code.
  - apply char_a_plus_code.
  - apply optstr_length.
  - apply decode_optstr.
  - intros B B' Heq. rewrite <- (decode_optstr B), <- (decode_optstr B').
    now rewrite Heq.
Qed.

(** C4 at two blobs of two bytes. *)
Lemma C4_optstr_two_letters_per_byte_witness :
  [x12; xab] = [x12; xab] /\ optstr [x12; xab] = "bckl".
Proof.
  destruct C4_optstr_two_letters_per_byte as (_ & _ & _ & _ & _ & Hinj).
  split; [apply Hinj|]; reflexivity.
Defined.

(** *** The environment edits on the command line *)

Lemma back_cons c s :
  back (String c s) = match back s with Some d => Some d | None => Some c end.
Proof.
  destruct s as [|d s]; [reflexivity|].
  destruct (back_is_Some (String d s)) as [x Hx]; [discriminate|].
  change (back (String c (String d s))) with (back (String d s)).
  now rewrite Hx.
Qed.

Lemma back_escape_quotes s : back (escape_quotes s) = back s.
Proof.
  induction s as [|c s IH]; [reflexivity|].
  cbn [escape_quotes]. destruct (Ascii.eqb c dquote);
    rewrite ?back_cons, IH; now destruct (back s).
Qed.

(** Escaping a parameter that has a last character. *)
Lemma escape_parameter_last s c :
  back s = Some c ->
  escape_parameter s =
  Some (escape_quotes s +:+
        (if Ascii.eqb c backslash then String backslash EmptyString else EmptyString)).
Proof.
  intros Hback. unfold escape_parameter, double_last_backslash.
  rewrite back_escape_quotes, Hback. simpl.
  destruct (Ascii.eqb c backslash); [reflexivity|]. now rewrite append_nil_r.
Qed.

Lemma escape_parameter_is_Some s : s <> EmptyString -> is_Some (escape_parameter s).
Proof.
  intros Hs. destruct (back_is_Some s Hs) as [c Hc].
  rewrite (escape_parameter_last s c Hc). eauto.
Qed.

Lemma escape_parameter_empty : escape_parameter EmptyString = None.
Proof. reflexivity. Qed.

(** The kinds are written as the nine words of the helper's command
    line. *)
Lemma env_switch_words t :
  env_switch t ∈
    ["replace "; "append "; "prepend "; "append-colon "; "prepend-colon ";
     "append-semicolon "; "prepend-semicolon "; "append-platform ";
     "prepend-platform "].
Proof. destruct t; simpl; set_solver. Qed.

Lemma env_argument_is_Some e :
  trim (name e) <> EmptyString -> value e <> EmptyString ->
  is_Some (env_argument e).
Proof.
  intros Hn Hv. unfold env_argument.
  destruct (escape_parameter_is_Some _ Hn) as [n' ->].
  destruct (escape_parameter_is_Some _ Hv) as [v' ->]. simpl. eauto.
Qed.

(** One pass of the loop on an entry that is not the terminator. *)
Lemma cmdWithEnv_loop_step e env cmd :
  trim (name e) <> EmptyString ->
  cmdWithEnv_loop (e :: env) cmd =
  (arg ← env_argument e; cmdWithEnv_loop env (cmd +:+ arg)).
Proof.
  intros Hn%empty_false. cbn [cmdWithEnv_loop]. rewrite Hn. unfold env_argument.
  destruct (escape_parameter (trim (name e))) as [n'|]; [|reflexivity]. simpl.
  destruct (escape_parameter (value e)) as [v'|]; [|reflexivity]. simpl.
  f_equal. now rewrite !append_assoc.
Qed.

Lemma cmdWithEnv_loop_prefix pre stop post cmd :
  Forall (fun e => trim (name e) <> EmptyString) pre ->
  trim (name stop) = EmptyString ->
  cmdWithEnv_loop (pre ++ stop :: post) cmd =
  (args ← mapM env_argument pre; Some (cmd +:+ concat_strings args)).
Proof.
  intros Hpre Hs. revert cmd. induction Hpre as [|e pre He Hpre IH]; intros cmd.
  - simpl. rewrite Hs. simpl. now rewrite append_nil_r.
  - rewrite <- app_comm_cons, (cmdWithEnv_loop_step _ _ _ He). simpl.
    destruct (env_argument e) as [arg|]; [|reflexivity]. simpl.
    rewrite IH. destruct (mapM env_argument pre) as [args|]; [|reflexivity].
    simpl. now rewrite append_assoc.
Qed.

Lemma mapM_env_argument_is_Some pre :
  Forall (fun e => trim (name e) <> EmptyString) pre ->
  Forall (fun e => value e <> EmptyString) pre ->
  is_Some (mapM env_argument pre).
Proof.
  induction 1 as [|e pre He Hpre IH]; intros Hv; simpl; [eauto|].
  apply Forall_cons in Hv as [Hve Hv].
  destruct (env_argument_is_Some e He Hve) as [arg ->].
  destruct (IH Hv) as [args ->]. simpl. eauto.
Qed.

Lemma env_calls_loop_prefix pre stop post :
  Forall (fun e => trim (name e) <> EmptyString) pre ->
  trim (name stop) = EmptyString ->
  env_calls_loop (pre ++ stop :: post) = Some (concat (entry_calls <$> pre), stop).
Proof.
  intros Hpre Hs. induction Hpre as [|e pre He Hpre IH].
  - simpl. now rewrite Hs.
  - rewrite <- app_comm_cons. cbn [env_calls_loop].
    apply empty_false in He. rewrite He, IH. reflexivity.
Qed.

(** The argument of an entry whose trimmed name ends in [c1] and whose
    value ends in [c2]: the kind word, then each parameter with its double
    quotes escaped, a final backslash doubled, between double quotes. *)
Lemma env_argument_last e c1 c2 :
  back (trim (name e)) = Some c1 -> back (value e) = Some c2 ->
  env_argument e =
  Some (" +env-" +:+ env_switch (type e) +:+
        quoted (escape_quotes (trim (name e)) +:+
                (if Ascii.eqb c1 backslash then String backslash EmptyString
                 else EmptyString)) +:+
        quoted (escape_quotes (value e) +:+
                (if Ascii.eqb c2 backslash then String backslash EmptyString
                 else EmptyString))).
Proof.
  intros Hn Hv. unfold env_argument.
  now rewrite (escape_parameter_last _ _ Hn), (escape_parameter_last _ _ Hv).
Qed.

(** The boot sequence without edits: the log file, the options, the
    identifier, in this order. *)
Lemma boot_calls_order l b o :
  boot_calls (Some l) (Some (b :: o)) None =
  Some [ mkCall "RENDERDOC_SetLogFile" (ofString l);
         mkCall "RENDERDOC_SetCaptureOptions" (ofCaptureOptions (b :: o));
         mkCall "RENDERDOC_GetTargetControlIdent" (ofIdent 0) ].
Proof. reflexivity. Qed.

(** The calls of the direct branch for the entries [pre], run in the
    target, append those entries to the pending list in order, each under
    its trimmed name, and leave the environment as it is. *)
Lemma run_entry_calls pre p :
  exists p',
    run_remote_calls (concat (entry_calls <$> pre)) p = Some p' /\
    envCallbacks p' = envCallbacks p ++ (trimmed <$> pre) /\
    environ p' = environ p /\
    Inst p' = Inst p.
Proof.
  revert p; induction pre as [|e pre IH]; intros p.
  - exists p. simpl. now rewrite app_nil_r.
  - destruct (IH (send_edit (trimmed e) p)) as (p' & Hrun & Hpending & Henv & Hinst).
    exists p'. split; [exact Hrun|]. rewrite Hpending, Henv, Hinst.
    destruct (send_edit_registers (trimmed e) p) as [-> ->].
    rewrite <- app_assoc. repeat split.
Qed.

(** C8 (the code at the failing input).  An edit whose value is empty:
    the source evaluates [value.back()] on the empty string, which has no
    last character, so the escaping of the value and with it the command
    line is undefined. *)
Theorem C8_empty_value_has_no_last_character :
  back EmptyString = None /\
  escape_parameter EmptyString = None /\
  commandLine "renderdoccmd.exe cap32for64"
    (Some [ {| type := eEnvModification_Replace; name := "X"; value := EmptyString |};
            no_edit ]) = None.
Proof. repeat split. Qed.

(** The thread of the apply call reads nothing of the data copied for
    it. *)
Lemma run_apply_call_ignores_data e e' p :
  run_remote_call (mkCall "RENDERDOC_ApplyEnvMods" (ofEnvPointer e)) p =
  run_remote_call (mkCall "RENDERDOC_ApplyEnvMods" (ofEnvPointer e')) p.
Proof. reflexivity. Qed.

Lemma run_remote_calls_snoc calls c p :
  run_remote_calls (calls ++ [c]) p =
  (p' ← run_remote_calls calls p; run_remote_call c p').
Proof.
  revert p; induction calls as [|c0 calls IH]; intros p;
    cbn [run_remote_calls app mbind option_bind].
  - now destruct (run_remote_call c p).
  - destruct (run_remote_call c0 p) as [p0|]; cbn [mbind option_bind]; [apply IH | reflexivity].
Qed.

(** C10 (the claim at the array [sample_env]).  On the direct branch the
    terminating entry is transmitted: [env] points at it when the loop is
    left, and the last call copies the bytes at [env] into the target.  So
    the calls made for two arrays that differ in the terminating entry only
    differ. *)
Lemma C10_terminating_entry_is_sent_with_the_apply_call :
  last <$> env_calls (Some sample_env) =
    Some (Some (mkCall "RENDERDOC_ApplyEnvMods"
                  (ofEnvPointer
                     {| type := eEnvModification_Replace; name := "  "; value := "zz" |}))) /\
  env_calls (Some (take 2 sample_env ++ no_edit :: drop 3 sample_env)) <>
  env_calls (Some sample_env).
Proof. split; [reflexivity | discriminate]. Qed.

(** C10 (amended).  In both branches the caller's array is read in order
    up to the first entry whose trimmed name is empty.  With [pre] the
    entries before that entry: the direct branch makes the three calls of
    each entry of [pre], in order, with the trimmed name, and then the
    apply call, whose data is the terminating entry itself; the delegated
    branch appends the argument of each entry of [pre], in order, with the
    trimmed name, whenever those arguments are defined, which they are
    when no value in [pre] is empty.  What follows the terminating entry
    is in neither result, and the terminating entry is not on the command
    line; the target ignores the data of the apply call, so the state the
    calls leave in the target is the same for every terminating entry and
    every continuation. *)
Theorem C10_env_array_read_up_to_first_empty_name :
  forall pre stop post,
    Forall (fun e => trim (name e) <> EmptyString) pre ->
    trim (name stop) = EmptyString ->
    env_calls (Some (pre ++ stop :: post)) =
      Some (concat (entry_calls <$> pre) ++
            [mkCall "RENDERDOC_ApplyEnvMods" (ofEnvPointer stop)]) /\
    (forall paramsAlloc,
        commandLine paramsAlloc (Some (pre ++ stop :: post)) =
        (args ← mapM env_argument pre;
         Some (paramsAlloc +:+ concat_strings args))) /\
    (Forall (fun e => value e <> EmptyString) pre ->
     is_Some (mapM env_argument pre)) /\
    (forall stop' post' lib,
        trim (name stop') = EmptyString ->
        (calls ← env_calls (Some (pre ++ stop' :: post')); run_remote_calls calls lib) =
        (calls ← env_calls (Some (pre ++ stop :: post)); run_remote_calls calls lib)).
Proof.
  intros pre stop post Hpre Hs.
  assert (forall stop0 post0,
             trim (name stop0) = EmptyString ->
             env_calls (Some (pre ++ stop0 :: post0)) =
             Some (concat (entry_calls <$> pre) ++
                   [mkCall "RENDERDOC_ApplyEnvMods" (ofEnvPointer stop0)])) as Hdirect.
  { intros stop0 post0 Hs0. unfold env_calls.
    now rewrite (env_calls_loop_prefix _ _ _ Hpre Hs0). }
  split; [|split; [|split]].
  - now apply Hdirect.
  - intros paramsAlloc. apply (cmdWithEnv_loop_prefix _ _ _ _ Hpre Hs).
  - now apply mapM_env_argument_is_Some.
  - intros stop' post' lib Hs'.
    rewrite (Hdirect stop' post' Hs'), (Hdirect stop post Hs).
    cbn [mbind option_bind]. rewrite !run_remote_calls_snoc.
    destruct (run_remote_calls (concat (entry_calls <$> pre)) lib) as [lib'|];
      cbn [mbind option_bind]; [apply run_apply_call_ignores_data | reflexivity].
Qed.

(** C10 at the array of [sample_env]: two entries, the terminator, and
    one entry after it. *)
Lemma C10_env_array_read_up_to_first_empty_name_witness :
  env_calls (Some sample_env) =
    Some [ mkCall "RENDERDOC_EnvModName" (ofString "PATH");
           mkCall "RENDERDOC_EnvModValue" (ofString "C:\dir\");
           mkCall "RENDERDOC_EnvMod" (ofType eEnvModification_AppendSemiColon);
           mkCall "RENDERDOC_EnvModName" (ofString "X");
           mkCall "RENDERDOC_EnvModValue" (ofString "a b");
           mkCall "RENDERDOC_EnvMod" (ofType eEnvModification_Replace);
           mkCall "RENDERDOC_ApplyEnvMods"
             (ofEnvPointer
                {| type := eEnvModification_Replace; name := "  "; value := "zz" |}) ] /\
  commandLine "cmd" (Some sample_env) =
    Some ("cmd +env-append-semicolon " +:+ quoted "PATH" +:+ quoted "C:\dir\\" +:+
          " +env-replace " +:+ quoted "X" +:+ quoted "a b").
Proof.
  destruct (C10_env_array_read_up_to_first_empty_name
              (take 2 sample_env)
              {| type := eEnvModification_Replace; name := "  "; value := "zz" |}
              (drop 3 sample_env)) as (Hdirect & Hdelegated & _).
  - repeat constructor; discriminate.
  - reflexivity.
  - split; [exact Hdirect | exact (Hdelegated "cmd")].
Defined.

End Injection.

(** ** Launching: claims *)

Section Launch.

(** [LaunchProcess] leaves the child running and both handles closed. *)
Lemma LaunchProcess_resumes dwProcessId :
  dwProcessId <> 0 ->
  (LaunchProcess dwProcessId).1 = dwProcessId /\
  thread_after (LaunchProcess dwProcessId).2 created_suspended =
  {| suspendCount := 0; handleOpen := false |}.
Proof.
  intros Hpid. unfold LaunchProcess.
  destruct (Z.eqb_spec dwProcessId 0); [contradiction|]. split; reflexivity.
Qed.

(** C6 (counterexample).  The claim at a child with process id 1234
    whose injection failed ([InjectIntoProcess] returned 0): 0 is
    returned, and the primary thread has been resumed before its handle
    was closed; it is not left suspended. *)
Lemma C6_failed_injection_resumes_the_thread :
  (LaunchAndInjectIntoProcess (Some tt) 1234 0 false).1 = 0 /\
  suspended
    (thread_after (LaunchAndInjectIntoProcess (Some tt) 1234 0 false).2
       created_suspended) = false /\
  In (ResumeThread hThread) (LaunchAndInjectIntoProcess (Some tt) 1234 0 false).2.
Proof. repeat split. simpl. auto. Qed.

(** C6 (amended).  Once the child is created, its process handle is
    closed and its primary thread is resumed whether or not the injection
    succeeded: after the call the thread is not suspended and its handle
    is closed, by exactly one [CloseHandle], the last call made.  When
    [InjectIntoProcess] returned 0 the function returns 0 and does not
    wait; otherwise it returns the identifier, and waits on the thread
    before closing the handle exactly when [waitForExit] is set. *)
Theorem C6_thread_resumed_then_handle_closed :
  forall dwProcessId ret waitForExit,
    dwProcessId <> 0 ->
    let r := LaunchAndInjectIntoProcess (Some tt) dwProcessId ret waitForExit in
    let th := thread_after r.2 created_suspended in
    r.1 = ret /\
    suspended th = false /\
    handleOpen th = false /\
    count_occ Event_eq_dec r.2 (CloseHandle hThread) = 1%nat /\
    count_occ Event_eq_dec r.2 (CloseHandle hProcess) = 1%nat /\
    last r.2 = Some (CloseHandle hThread) /\
    (In (WaitForSingleObject hThread) r.2 <-> ret <> 0 /\ waitForExit = true).
Proof.
  intros pid ret w Hpid r th. subst th r. unfold LaunchAndInjectIntoProcess.
  destruct (Z.eqb_spec pid 0) as [|_]; [contradiction|].
  destruct (Z.eqb_spec ret 0) as [->|Hret]; [|destruct w];
    cbn [fst snd]; repeat split; try reflexivity; try assumption;
    try (intros [H1 H2]; congruence);
    try (intros _; cbn; tauto);
    match goal with
    | H : In _ _ |- _ => exfalso; cbn in H; intuition discriminate
    end.
Qed.

(** C6 at a child with process id 1234 whose injection gave the
    identifier 38920, with [waitForExit] set. *)
Lemma C6_thread_resumed_then_handle_closed_witness :
  (LaunchAndInjectIntoProcess (Some tt) 1234 38920 true).1 = 38920 /\
  suspended
    (thread_after (LaunchAndInjectIntoProcess (Some tt) 1234 38920 true).2
       created_suspended) = false.
Proof.
  destruct (C6_thread_resumed_then_handle_closed 1234 38920 true)
    as (Hret & Hrun & _).
  - discriminate.
  - split; [exact Hret | exact Hrun].
Defined.

End Launch.

(** ** The deferred environment edits: further properties *)

Section EnvironmentMore.

Implicit Types (env : Environment) (cur ret : gmap string string).
Implicit Types (m : EnvironmentModification) (p : Process).
Implicit Types (block : list string).

(** Every binding of the map comes from an entry of the block. *)
Lemma EnvStringToEnvMap_from_origin block ret cur k v :
  EnvStringToEnvMap_from block ret = Some cur ->
  cur !! k = Some v ->
  ret !! k = Some v \/
  exists entry n,
    entry ∈ block /\ wcschr_split equals_sign entry = Some (n, v) /\ k = lowercase n.
Proof.
  revert ret; induction block as [|entry block IH]; intros ret; simpl.
  - intros [= ->]. auto.
  - destruct (empty entry); [intros [= ->]; auto|].
    destruct (wcschr_split equals_sign entry) as [[n w]|] eqn:Hsplit; [|discriminate].
    simpl. intros Hcur Hk.
    destruct (IH _ Hcur Hk) as [Hret | (e & n' & He & Hs & ->)].
    + destruct (decide (lowercase n = k)) as [<-|Hne].
      * rewrite lookup_insert_eq in Hret. injection Hret as ->.
        right. exists entry, n. split; [left|]. auto.
      * rewrite lookup_insert_ne in Hret by exact Hne. auto.
    + right. exists e, n'. split; [now right|]. auto.
Qed.

(** X1.  Every binding of the map that [EnvStringToEnvMap] builds comes
    from an entry of the block: the value is the text after the entry's
    first [=], and the key is the lowered text before it.  So every key of
    the map is in lower case. *)
Theorem X1_map_bindings_come_from_entries :
  forall block cur k v,
    EnvStringToEnvMap block = Some cur ->
    cur !! k = Some v ->
    (exists entry n,
        entry ∈ block /\
        wcschr_split equals_sign entry = Some (n, v) /\
        k = lowercase n) /\
    lowercase k = k.
Proof.
  intros block cur k v Hcur Hk.
  destruct (EnvStringToEnvMap_from_origin block ∅ cur k v Hcur Hk)
    as [Hempty | (entry & n & Hin & Hsplit & ->)].
  - rewrite lookup_empty in Hempty. discriminate.
  - split; [eauto | apply lowercase_idemp].
Qed.

(** X1 at the block [Path=C:\a], [TEMP=x=y]. *)
Lemma X1_map_bindings_come_from_entries_witness :
  (exists entry n,
      entry ∈ ["Path=C:\a"; "TEMP=x=y"] /\
      wcschr_split equals_sign entry = Some (n, "x=y") /\
      "temp" = lowercase n) /\
  lowercase "temp" = "temp".
Proof.
  apply (X1_map_bindings_come_from_entries
           ["Path=C:\a"; "TEMP=x=y"]
           (<["temp" := "x=y"]> (<["path" := "C:\a"]> ∅))
           "temp" "x=y").
  - reflexivity.
  - reflexivity.
Defined.

Lemma EnvStringToEnvMap_from_app block1 block2 ret :
  Forall (fun entry => entry <> EmptyString) block1 ->
  EnvStringToEnvMap_from (block1 ++ block2) ret =
  (EnvStringToEnvMap_from block1 ret ≫= EnvStringToEnvMap_from block2).
Proof.
  intros Hne. revert ret. induction Hne as [|entry block1 He Hne IH]; intros ret; simpl.
  - reflexivity.
  - apply empty_false in He. rewrite He.
    destruct (wcschr_split equals_sign entry) as [[n w]|]; [|reflexivity]. simpl.
    apply IH.
Qed.

Lemma EnvStringToEnvMap_from_stop pre post ret :
  EnvStringToEnvMap_from (pre ++ EmptyString :: post) ret =
  EnvStringToEnvMap_from pre ret.
Proof.
  revert ret; induction pre as [|entry pre IH]; intros ret; simpl; [reflexivity|].
  destruct (empty entry); [reflexivity|].
  destruct (wcschr_split equals_sign entry) as [[n w]|]; [|reflexivity]. simpl.
  apply IH.
Qed.

Lemma wcschr_split_no_equals s :
  no_equals s = true -> wcschr_split equals_sign s = None.
Proof.
  induction s as [|c s IH]; simpl; [reflexivity|].
  intros [Hc Hs]%andb_true_iff. apply negb_true_iff in Hc.
  now rewrite Hc, (IH Hs).
Qed.

(** X2.  The block ends at its first empty entry: what follows that entry
    is not read.  An entry before it that is not empty and has no [=]
    makes the result undefined ([wcschr] gives null, which the function
    dereferences), whatever the other entries are, as long as the entries
    before it are well formed. *)
Theorem X2_block_ends_at_empty_entry_and_needs_equals :
  (forall pre post,
      EnvStringToEnvMap (pre ++ EmptyString :: post) = EnvStringToEnvMap pre) /\
  (forall pre bad post,
      Forall (fun entry => entry <> EmptyString) pre ->
      is_Some (EnvStringToEnvMap pre) ->
      bad <> EmptyString -> no_equals bad = true ->
      EnvStringToEnvMap (pre ++ bad :: post) = None).
Proof.
  split.
  - intros pre post. apply EnvStringToEnvMap_from_stop.
  - intros pre bad post Hpre [cur Hcur] Hbad Hno. unfold EnvStringToEnvMap in *.
    rewrite (EnvStringToEnvMap_from_app _ _ _ Hpre), Hcur. simpl.
    apply empty_false in Hbad. rewrite Hbad.
    now rewrite (wcschr_split_no_equals _ Hno).
Qed.

(** X2 at the block [A=1], [novalue], [B=2]. *)
Lemma X2_block_ends_at_empty_entry_and_needs_equals_witness :
  EnvStringToEnvMap ["A=1"; "novalue"; "B=2"] = None.
Proof.
  apply (proj2 X2_block_ends_at_empty_entry_and_needs_equals ["A=1"] "novalue" ["B=2"]).
  - repeat constructor. discriminate.
  - eexists. reflexivity.
  - discriminate.
  - reflexivity.
Defined.

(** X3.  An entry overrides every earlier entry whose name is the same up
    to case: after a block of well-formed entries, one more entry [n=v]
    (with no [=] in [n]) makes the map answer [v] for the lowered [n] and
    leaves the other keys as they were. *)
Theorem X3_later_entry_overrides_earlier :
  forall block cur n v,
    Forall (fun entry => entry <> EmptyString) block ->
    EnvStringToEnvMap block = Some cur ->
    no_equals n = true ->
    EnvStringToEnvMap (block ++ [n +:+ String equals_sign v]) =
    Some (<[lowercase n := v]> cur).
Proof.
  intros block cur n v Hblock Hcur Hn. unfold EnvStringToEnvMap in *.
  rewrite (EnvStringToEnvMap_from_app _ _ _ Hblock), Hcur. simpl.
  now rewrite entry_not_empty, (wcschr_split_app n v Hn).
Qed.

(** X3 at the block [Path=old] extended by [PATH=new]. *)
Lemma X3_later_entry_overrides_earlier_witness :
  EnvStringToEnvMap (["Path=old"] ++ ["PATH" +:+ String equals_sign "new"]) =
  Some (<[lowercase "PATH" := "new"]> (<["path" := "old"]> ∅)).
Proof.
  apply (X3_later_entry_overrides_earlier ["Path=old"] (<["path" := "old"]> ∅) "PATH" "new").
  - repeat constructor. discriminate.
  - reflexivity.
  - reflexivity.
Defined.


Lemma GetEnvironmentVariableW_lowercase n n' env :
  lowercase n = lowercase n' ->
  GetEnvironmentVariableW n env = GetEnvironmentVariableW n' env.
Proof.
  intros Heq. induction env as [|[k w] env IH]; simpl; [reflexivity|].
  now rewrite Heq, IH.
Qed.

(** Reading a variable after a variable was set. *)
Lemma GetEnvironmentVariableW_Set n n' v env :
  GetEnvironmentVariableW n (SetEnvironmentVariableW n' v env) =
  if decide (lowercase n' = lowercase n) then Some v
  else GetEnvironmentVariableW n env.
Proof.
  induction env as [|[k w] env IH]; simpl.
  - destruct (String.eqb_spec (lowercase n') (lowercase n));
      destruct (decide (lowercase n' = lowercase n)); congruence.
  - destruct (String.eqb_spec (lowercase k) (lowercase n')) as [Hk|Hk]; simpl.
    + destruct (String.eqb_spec (lowercase k) (lowercase n));
        destruct (decide (lowercase n' = lowercase n)); congruence.
    + destruct (String.eqb_spec (lowercase k) (lowercase n)) as [Hkn|Hkn].
      * destruct (decide (lowercase n' = lowercase n)); congruence.
      * exact IH.
Qed.

(** The variable read after a sequence of calls: the value of the last
    call made under its name, up to case. *)
Lemma GetEnvironmentVariableW_foldl n calls env :
  GetEnvironmentVariableW n (foldl set_call env calls) =
  match last (filter (fun call => lowercase call.1 = lowercase n) calls) with
  | Some call => Some call.2
  | None => GetEnvironmentVariableW n env
  end.
Proof.
  revert env; induction calls as [|c calls IH]; intros env; [reflexivity|].
  cbn [foldl]. rewrite IH. rewrite filter_cons.
  unfold set_call at 1. rewrite GetEnvironmentVariableW_Set.
  destruct (decide (lowercase c.1 = lowercase n)) as [Hc|Hc].
  - rewrite last_cons.
    now destruct (last (filter (fun call => lowercase call.1 = lowercase n) calls)).
  - reflexivity.
Qed.


Lemma modification_call_name cur m :
  lowercase (modification_call cur m).1 = lowercase (name m).
Proof.
  unfold modification_call.
  destruct (cur !! lowercase (name m)); simpl; [apply lowercase_idemp | reflexivity].
Qed.

Lemma modification_call_value cur m :
  (modification_call cur m).2 =
  modified_value (type m) (default EmptyString (cur !! lowercase (name m))) (value m).
Proof. unfold modification_call. now destruct (cur !! lowercase (name m)). Qed.

Lemma GetEnvironmentVariableW_after_edits cur n mods env :
  GetEnvironmentVariableW n (foldl set_call env (modification_call cur <$> mods)) =
  match last (filter (fun m => lowercase (name m) = lowercase n) mods) with
  | Some m => Some (modification_call cur m).2
  | None => GetEnvironmentVariableW n env
  end.
Proof.
  revert env; induction mods as [|m mods IH]; intros env; [reflexivity|].
  cbn [fmap list_fmap foldl]. rewrite IH, filter_cons.
  unfold set_call at 1. rewrite GetEnvironmentVariableW_Set, modification_call_name.
  destruct (decide (lowercase (name m) = lowercase n)) as [Hm|Hm].
  - rewrite last_cons.
    now destruct (last (filter (fun m => lowercase (name m) = lowercase n) mods)).
  - reflexivity.
Qed.

(** X4.  After [ApplyEnvironmentModification], a variable holds what the
    last pending edit of that variable (up to case) computes from the value
    the variable had before the call; the earlier edits of the same
    variable leave no trace, and a variable that no edit names keeps its
    value.  (The environment has block names, no two equal up to case; the
    edit names are not empty and do not start with [=].) *)
Theorem X4_last_edit_of_a_variable_wins :
  forall p calls p' n,
    wf_environ (environ p) ->
    Forall (fun m => plain_name (name m) = true) (envCallbacks p) ->
    ApplyEnvironmentModification p = Some (calls, p') ->
    GetEnvironmentVariableW n (environ p') =
    match last (filter (fun m => lowercase (name m) = lowercase n) (envCallbacks p)) with
    | Some m =>
        Some (modified_value (type m)
                (default EmptyString (GetEnvironmentVariableW n (environ p)))
                (value m))
    | None => GetEnvironmentVariableW n (environ p)
    end.
Proof.
  intros p calls p' n Hwf Hplain Happly.
  destruct (EnvStringToEnvMap_total (environ p)) as [cur Hcur].
  rewrite (ApplyEnvironmentModification_unfold p cur Hcur) in Happly.
  injection Happly as _ <-. cbn [environ].
  change (foldl _ (environ p) ?l) with (foldl set_call (environ p) l).
  rewrite GetEnvironmentVariableW_after_edits.
  destruct (last (filter _ (envCallbacks p))) as [m|] eqn:Hlast; [|reflexivity].
  apply last_Some_elem_of, list_elem_of_filter in Hlast as [Hname Hin].
  rewrite modification_call_value. do 2 f_equal.
  rewrite Forall_forall in Hplain.
  rewrite (EnvStringToEnvMap_lookup _ _ _ Hwf (Hplain m Hin) Hcur).
  f_equal. now apply GetEnvironmentVariableW_lowercase.
Qed.

(** X4 at scenario S3 with [X=old] live: the Replace is lost, the Append
    works on [old]. *)
Lemma X4_last_edit_of_a_variable_wins_witness :
  GetEnvironmentVariableW "x"
    (foldl set_call [("X", "old")] [("x", "a"); ("x", "oldb")]) = Some "oldb".
Proof.
  pose proof (X4_last_edit_of_a_variable_wins (S3_process [("X", "old")])
                [("x", "a"); ("x", "oldb")]
                {| environ := foldl set_call [("X", "old")] [("x", "a"); ("x", "oldb")];
                   envCallbacks := [];
                   tempEnvMod := tempEnvMod (S3_process [("X", "old")]);
                   Inst := Inst (S3_process [("X", "old")]) |}
                "x") as H.
  apply H.
  - split; [repeat constructor | apply NoDup_singleton].
  - repeat constructor.
  - reflexivity.
Defined.

Lemma occurs_in_refl s : occurs_in s s.
Proof. exists EmptyString, EmptyString. simpl. now rewrite append_nil_r. Qed.

Lemma occurs_in_left s r : occurs_in s (s +:+ r).
Proof. exists EmptyString, r. reflexivity. Qed.

Lemma occurs_in_right l s : occurs_in s (l +:+ s).
Proof. exists l, EmptyString. now rewrite append_nil_r. Qed.

(** X6.  Whatever the kind, the edit value is part of the new value; and
    the starting value is part of it too for every kind but Replace, with
    at most one separator character added between the two. *)
Theorem X6_edit_keeps_both_values :
  forall t existing mvalue,
    occurs_in mvalue (modified_value t existing mvalue) /\
    (t <> eEnvModification_Replace ->
     occurs_in existing (modified_value t existing mvalue)) /\
    (String.length (modified_value t existing mvalue) <=
     String.length existing + String.length mvalue + 1)%nat.
Proof.
  intros t existing mvalue. rewrite modified_value_spec. split; [|split].
  - destruct t; try case_decide;
      first [ apply occurs_in_refl | apply occurs_in_left | apply occurs_in_right
            | now exists (existing +:+ ":"), EmptyString; rewrite append_nil_r, append_assoc
            | now exists (existing +:+ ";"), EmptyString; rewrite append_nil_r, append_assoc ].
  - intros Ht. destruct t; try congruence; try case_decide; subst;
      first [ apply occurs_in_left | apply occurs_in_right
            | now exists EmptyString, mvalue
            | now exists (mvalue +:+ ":"), EmptyString; rewrite append_nil_r, append_assoc
            | now exists (mvalue +:+ ";"), EmptyString; rewrite append_nil_r, append_assoc ].
  - destruct t; try case_decide; rewrite ?append_length; simpl; lia.
Qed.

(** X6 at the kind PrependColon. *)
Lemma X6_edit_keeps_both_values_witness :
  occurs_in "old" (modified_value eEnvModification_PrependColon "old" "new").
Proof.
  apply (X6_edit_keeps_both_values eEnvModification_PrependColon "old" "new").
  discriminate.
Defined.

End EnvironmentMore.

(** ** The direct branch and the capture library together *)

Section DirectBranch.

Implicit Types (pre post : list EnvironmentModification) (lib : Process).

Lemma run_remote_calls_app calls1 calls2 lib :
  run_remote_calls (calls1 ++ calls2) lib =
  (run_remote_calls calls1 lib ≫= run_remote_calls calls2).
Proof.
  revert lib; induction calls1 as [|c calls1 IH]; intros lib; simpl; [reflexivity|].
  destruct (run_remote_call c lib) as [lib'|]; simpl; [apply IH | reflexivity].
Qed.

Lemma run_apply_call e lib :
  run_remote_calls
    (InjectFunctionCall "RENDERDOC_ApplyEnvMods" (ofEnvPointer e)
       sizeof_EnvironmentModification) lib =
  snd <$> ApplyEnvironmentModification lib.
Proof.
  cbn [InjectFunctionCall sizeof_EnvironmentModification run_remote_calls].
  unfold run_remote_call, RENDERDOC_ApplyEnvMods. cbn [data funcName String.eqb].
  change (String.eqb "RENDERDOC_ApplyEnvMods" "RENDERDOC_ApplyEnvMods") with true.
  cbn iota. now destruct (ApplyEnvironmentModification lib).
Qed.

(** X7.  The remote calls that the direct branch makes for the caller's
    array, run by the exported functions of the capture library, stage
    the entries before the terminating entry, in order and under their
    trimmed names, behind what was pending, and then apply the pending list
    once: the library is left as [ApplyEnvironmentModification] leaves the
    staged state. *)
Theorem X7_direct_branch_stages_then_applies :
  forall pre stop post lib,
    Forall (fun e => trim (name e) <> EmptyString) pre ->
    trim (name stop) = EmptyString ->
    exists calls staged sets lib',
      env_calls (Some (pre ++ stop :: post)) = Some calls /\
      envCallbacks staged = envCallbacks lib ++ (trimmed <$> pre) /\
      environ staged = environ lib /\
      ApplyEnvironmentModification staged = Some (sets, lib') /\
      run_remote_calls calls lib = Some lib'.
Proof.
  intros pre stop post lib Hpre Hstop.
  destruct (run_entry_calls pre lib) as (staged & Hrun & Hpending & Henv & _).
  destruct (EnvStringToEnvMap_total (environ staged)) as [cur Hcur].
  pose proof (ApplyEnvironmentModification_unfold staged cur Hcur) as Happly.
  eexists _, staged, _, _. split; [|split; [exact Hpending|split; [exact Henv|split]]].
  - unfold env_calls. rewrite (env_calls_loop_prefix _ _ _ Hpre Hstop). reflexivity.
  - exact Happly.
  - rewrite run_remote_calls_app, Hrun. cbn [mbind option_bind].
    rewrite run_apply_call, Happly. reflexivity.
Qed.

(** X7 at the array [sample_env], sent to a library loaded in a process
    with [PATH=C:\bin]. *)
Lemma X7_direct_branch_stages_then_applies_witness :
  exists calls staged sets lib',
    env_calls (Some (take 2 sample_env ++ no_edit :: drop 3 sample_env)) = Some calls /\
    envCallbacks staged =
      envCallbacks (loaded [("PATH", "C:\bin")]) ++ (trimmed <$> take 2 sample_env) /\
    environ staged = environ (loaded [("PATH", "C:\bin")]) /\
    ApplyEnvironmentModification staged = Some (sets, lib') /\
    run_remote_calls calls (loaded [("PATH", "C:\bin")]) = Some lib'.
Proof.
  apply (X7_direct_branch_stages_then_applies
           (take 2 sample_env) no_edit (drop 3 sample_env) (loaded [("PATH", "C:\bin")])).
  - repeat constructor; discriminate.
  - reflexivity.
Defined.

End DirectBranch.

(** ** The module locator: further properties *)

Section LocatorMore.

Implicit Types (t : Target) (m : MODULEENTRY32) (mods : list MODULEENTRY32).

Lemma module_loop_sound lib me32 rest n r :
  (module_loop lib me32 rest n).1 = r -> r <> 0 ->
  exists m, m ∈ me32 :: rest /\ modBaseAddr m = r /\
            is_Some (wcsstr (modnameLower m) lib).
Proof.
  revert me32 n; induction rest as [|next rest IH]; intros me32 n; simpl.
  - destruct (wcsstr (modnameLower me32) lib) as [o|] eqn:Hw.
    + destruct (Z.eqb_spec (modBaseAddr me32) 0) as [Hz|Hz]; simpl; intros <- Hr.
      * congruence.
      * exists me32. split; [left|]. rewrite Hw. eauto.
    + simpl. intros <- Hr. congruence.
  - destruct (wcsstr (modnameLower me32) lib) as [o|] eqn:Hw.
    + destruct (Z.eqb_spec (modBaseAddr me32) 0) as [Hz|Hz]; simpl.
      * intros Hloop Hr. destruct (IH _ _ Hloop Hr) as (m & Hin & Hm).
        exists m. split; [now right | exact Hm].
      * intros <- Hr. exists me32. split; [left|]. rewrite Hw. eauto.
    + simpl. intros Hloop Hr. destruct (IH _ _ Hloop Hr) as (m & Hin & Hm).
      exists m. split; [now right | exact Hm].
Qed.

(** X8.  A result of [FindRemoteDLL] that is not 0 is the base address of
    a module of the snapshot held, and the lowered query occurs in the
    lowered copy of that module's name; the same result is returned for
    two queries that differ in case only. *)
Theorem X8_nonzero_result_is_a_matching_module :
  forall t libName,
    ((FindRemoteDLL t libName).1 <> 0 ->
     exists mods m,
       (snapshot_loop t 10 0).1 = Some mods /\
       m ∈ mods /\
       modBaseAddr m = (FindRemoteDLL t libName).1 /\
       occurs_in (lowercase libName) (modnameLower m)) /\
    (forall libName',
        lowercase libName' = lowercase libName ->
        FindRemoteDLL t libName' = FindRemoteDLL t libName).
Proof.
  intros t libName. split.
  - unfold FindRemoteDLL.
    destruct (snapshot_loop t 10 0) as [[[|me32 rest]|] calls]; simpl;
      try congruence.
    destruct (module_loop (strlower libName) me32 rest 0) as [ret n] eqn:Hloop.
    simpl. intros Hret.
    destruct (module_loop_sound (strlower libName) me32 rest 0%nat ret) as (m & Hin & Hbase & Hw).
    + now rewrite Hloop.
    + exact Hret.
    + exists (me32 :: rest), m. split; [reflexivity|]. split; [exact Hin|].
      split; [exact Hbase|]. now apply wcsstr_spec.
  - intros libName' Heq. unfold FindRemoteDLL, strlower. now rewrite Heq.
Qed.

(** X8 at the target [three_modules_target]. *)
Lemma X8_nonzero_result_is_a_matching_module_witness :
  exists mods m,
    (snapshot_loop three_modules_target 10 0).1 = Some mods /\
    m ∈ mods /\
    modBaseAddr m = (FindRemoteDLL three_modules_target "RenderDoc.dll").1 /\
    occurs_in (lowercase "RenderDoc.dll") (modnameLower m).
Proof.
  apply (proj1 (X8_nonzero_result_is_a_matching_module three_modules_target "RenderDoc.dll")).
  discriminate.
Defined.

Lemma wcsstr_empty_needle hay : wcsstr hay EmptyString = Some 0%nat.
Proof. rewrite wcsstr_unfold. now destruct hay. Qed.

Lemma module_loop_empty_query me32 rest n :
  (module_loop EmptyString me32 rest n).1 =
  default 0 (head (filter (fun a => a <> 0) (modBaseAddr <$> me32 :: rest))).
Proof.
  revert me32 n; induction rest as [|next rest IH]; intros me32 n;
    cbn [module_loop]; rewrite wcsstr_empty_needle;
    cbn [fmap list_fmap]; rewrite filter_cons;
    destruct (Z.eqb_spec (modBaseAddr me32) 0) as [Hz|Hz];
    destruct (decide (modBaseAddr me32 <> 0)); try contradiction; try reflexivity.
  - exact Hz.
  - apply IH.
Qed.

(** X9.  An empty query matches every module: [FindRemoteDLL] then returns
    the base address of the first module of the snapshot whose base is not
    null, and 0 when there is none. *)
Theorem X9_empty_query_matches_first_module :
  forall t mods,
    (snapshot_loop t 10 0).1 = Some mods ->
    (FindRemoteDLL t EmptyString).1 =
    default 0 (head (filter (fun a => a <> 0) (modBaseAddr <$> mods))).
Proof.
  intros t mods Hsnap. unfold FindRemoteDLL.
  destruct (snapshot_loop t 10 0) as [snap calls]. simpl in Hsnap. subst snap.
  destruct mods as [|me32 rest]; [reflexivity|].
  pose proof (module_loop_empty_query me32 rest 0%nat) as Hloop.
  change (strlower EmptyString) with EmptyString.
  destruct (module_loop EmptyString me32 rest 0). exact Hloop.
Qed.

(** X9 at the target [three_modules_target]: the base of [ntdll.dll]. *)
Lemma X9_empty_query_matches_first_module_witness :
  (FindRemoteDLL three_modules_target EmptyString).1 = 0x77000000.
Proof.
  apply (X9_empty_query_matches_first_module three_modules_target
           [mkModule "ntdll.dll" 0x77000000;
            mkModule "RenderDoc.DLL" 0x10000000;
            mkModule "renderdoc.dll" 0x20000000]).
  reflexivity.
Defined.

End LocatorMore.

(** ** The module locator: its trace *)

Section LocatorTrace.

Implicit Types (t : Target) (m : MODULEENTRY32) (mods : list MODULEENTRY32).

Lemma snapshot_loop_events t remaining i :
  Forall (fun e => e ∈ failed_attempt) (snapshot_loop t remaining i).2.
Proof.
  assert (Forall (fun e => e ∈ failed_attempt) failed_attempt) as Hfailed
    by now apply Forall_forall.
  revert i; induction remaining as [|remaining IH]; intros i; cbn [snapshot_loop].
  - constructor.
  - destruct (snapshot_attempt t i) as [err|mods].
    + destruct (err =? ERROR_BAD_LENGTH); [|exact Hfailed].
      specialize (IH (S i)). destruct (snapshot_loop t remaining (S i)) as [snap calls].
      apply Forall_app. split; [exact Hfailed | exact IH].
    + repeat constructor.
Qed.

Lemma occurrences_snapshot_loop e t remaining i :
  e ∉ failed_attempt -> occurrences e (snapshot_loop t remaining i).2 = 0%nat.
Proof.
  intros He. apply count_occ_not_In. intros Hin%list_elem_of_In.
  pose proof (snapshot_loop_events t remaining i) as Hall.
  rewrite Forall_forall in Hall. apply He, Hall, Hin.
Qed.

Lemma not_failed_attempt e : not_failed e -> e ∉ failed_attempt.
Proof.
  intros He Hin. unfold failed_attempt in Hin.
  repeat (apply elem_of_cons in Hin as [->|Hin]; [exact He|]).
  now apply elem_of_nil in Hin.
Qed.

Lemma occurrences_app e l1 l2 :
  occurrences e (l1 ++ l2) = (occurrences e l1 + occurrences e l2)%nat.
Proof. apply count_occ_app. Qed.

Lemma last_app_singleton (l : list Event) e : last (l ++ [e]) = Some e.
Proof. apply last_snoc. Qed.

(** The trace of [FindRemoteDLL], by the snapshot held and the result. *)
Lemma FindRemoteDLL_trace t libName :
  let r := FindRemoteDLL t libName in
  let calls := (snapshot_loop t 10 0).2 in
  match (snapshot_loop t 10 0).1 with
  | None => r.2 = calls ++ [RDCERR "Couldn't create toolhelp dump"]
  | Some [] =>
      r.2 = calls ++ [Module32First; GetLastError;
                      RDCERR "Couldn't get first module"; CloseHandle hModuleSnap]
  | Some (_ :: _) =>
      r.2 = calls ++ [Module32First] ++
            (if r.1 =? 0 then liveness_probe t else []) ++ [CloseHandle hModuleSnap]
  end.
Proof.
  unfold FindRemoteDLL.
  destruct (snapshot_loop t 10 0) as [[[|me32 rest]|] calls]; simpl; try reflexivity.
  now destruct (module_loop (strlower libName) me32 rest 0).
Qed.

(** X10.  [FindRemoteDLL] closes the snapshot handle exactly once, as its
    last call, whenever a snapshot was obtained, and closes no handle
    otherwise.  It opens the target for the liveness probe exactly when
    modules were enumerated and the result is 0, and closes the probe's
    handle exactly when [OpenProcess] gave one. *)
Theorem X10_locator_closes_what_it_opens :
  forall t libName,
    let r := FindRemoteDLL t libName in
    match (snapshot_loop t 10 0).1 with
    | None =>
        forall h, occurrences (CloseHandle h) r.2 = 0%nat /\
                  occurrences OpenProcess r.2 = 0%nat
    | Some mods =>
        occurrences (CloseHandle hModuleSnap) r.2 = 1%nat /\
        last r.2 = Some (CloseHandle hModuleSnap) /\
        occurrences OpenProcess r.2 =
          (if bool_decide (mods <> []) && (r.1 =? 0) then 1%nat else 0%nat) /\
        occurrences (CloseHandle hQuery) r.2 =
          (if bool_decide (mods <> []) && (r.1 =? 0) && bool_decide (is_Some (liveness t))
           then 1%nat else 0%nat)
    end.
Proof.
  intros t libName r. subst r.
  pose proof (FindRemoteDLL_trace t libName) as Htrace. cbv zeta in Htrace.
  assert (forall e, not_failed e -> occurrences e (snapshot_loop t 10 0).2 = 0%nat)
    as Hzero.
  { intros e He. apply occurrences_snapshot_loop. now apply not_failed_attempt. }
  destruct (snapshot_loop t 10 0) as [[[|me32 rest]|] calls];
    cbn [fst snd] in *; rewrite Htrace.
  - rewrite !occurrences_app, !Hzero by exact I.
    change [Module32First; GetLastError; RDCERR "Couldn't get first module";
            CloseHandle hModuleSnap]
      with ([Module32First; GetLastError; RDCERR "Couldn't get first module"] ++
            [CloseHandle hModuleSnap]).
    rewrite app_assoc, last_snoc. repeat split.
  - rewrite !occurrences_app, !Hzero by exact I.
    rewrite !app_assoc, last_snoc.
    destruct ((FindRemoteDLL t libName).1 =? 0); cbn [andb bool_decide];
      [unfold liveness_probe; destruct (liveness t) as [c|];
       [destruct (c =? STILL_ACTIVE)|]|];
      repeat split.
  - intros h. rewrite !occurrences_app, !Hzero by (try destruct h; exact I).
    split; [destruct h|]; reflexivity.
Qed.

(** X11.  The two diagnostics of a failed search are told apart by the
    liveness probe: when modules were enumerated and none matched,
    [FindRemoteDLL] reports that the module was not found exactly when the
    target could be opened and its exit code is [STILL_ACTIVE], and
    reports that the process is no longer available otherwise; it issues
    neither diagnostic when a module matched or no module was
    enumerated. *)
Theorem X11_diagnostic_tells_dead_target_from_missing_module :
  forall t libName,
    let r := FindRemoteDLL t libName in
    let searched :=
      match (snapshot_loop t 10 0).1 with
      | Some (_ :: _) => r.1 =? 0
      | _ => false
      end in
    let alive :=
      match liveness t with
      | Some exitCode => exitCode =? STILL_ACTIVE
      | None => false
      end in
    occurrences (RDCERR "Couldn't find module") r.2 =
      (if searched && alive then 1%nat else 0%nat) /\
    occurrences (RDCERR "no longer available") r.2 =
      (if searched && negb alive then 1%nat else 0%nat).
Proof.
  intros t libName r searched alive. subst r searched alive.
  pose proof (FindRemoteDLL_trace t libName) as Htrace. cbv zeta in Htrace.
  assert (forall e, not_failed e -> occurrences e (snapshot_loop t 10 0).2 = 0%nat)
    as Hzero.
  { intros e He. apply occurrences_snapshot_loop. now apply not_failed_attempt. }
  destruct (snapshot_loop t 10 0) as [[[|me32 rest]|] calls];
    cbn [fst snd] in *; rewrite Htrace, !occurrences_app, !Hzero by exact I.
  - split; reflexivity.
  - destruct ((FindRemoteDLL t libName).1 =? 0); cbn [andb];
      [unfold liveness_probe; destruct (liveness t) as [c|];
       [destruct (c =? STILL_ACTIVE)|]|];
      split; reflexivity.
  - split; reflexivity.
Qed.

End LocatorTrace.

(** ** Injection: further properties *)

Section InjectionMore.

Implicit Types (e : EnvironmentModification) (s : string).
Implicit Types (env : list EnvironmentModification).

Lemma cmdWithEnv_loop_None env cmd :
  Forall (fun e => trim (name e) <> EmptyString) env ->
  cmdWithEnv_loop env cmd = None.
Proof.
  intros Henv. revert cmd. induction Henv as [|e env He Henv IH]; intros cmd.
  - reflexivity.
  - rewrite (cmdWithEnv_loop_step _ _ _ He).
    destruct (env_argument e); [apply IH | reflexivity].
Qed.

Lemma env_calls_loop_None env :
  Forall (fun e => trim (name e) <> EmptyString) env ->
  env_calls_loop env = None.
Proof.
  induction 1 as [|e env He Henv IH]; [reflexivity|].
  cbn [env_calls_loop]. apply empty_false in He. now rewrite He, IH.
Qed.

(** X12.  The caller's array must hold a terminating entry: on an array
    in which every trimmed name is not empty (the empty array among them)
    both loops read beyond the last entry, so neither the remote calls of
    the direct branch nor the command line of the delegated branch is
    defined. *)
Theorem X12_array_without_terminator_is_read_past_its_end :
  forall env,
    Forall (fun e => trim (name e) <> EmptyString) env ->
    env_calls (Some env) = None /\
    forall paramsAlloc, commandLine paramsAlloc (Some env) = None.
Proof.
  intros env Henv. split.
  - unfold env_calls. now rewrite (env_calls_loop_None env Henv).
  - intros paramsAlloc. apply (cmdWithEnv_loop_None env paramsAlloc Henv).
Qed.

(** X12 at the array of the single edit [X a Replace]. *)
Lemma X12_array_without_terminator_is_read_past_its_end_witness :
  env_calls (Some (take 1 S3_edits)) = None /\
  forall paramsAlloc, commandLine paramsAlloc (Some (take 1 S3_edits)) = None.
Proof.
  apply (X12_array_without_terminator_is_read_past_its_end (take 1 S3_edits)).
  repeat constructor. discriminate.
Defined.

Lemma cmdWithEnv_loop_extends env cmd r :
  cmdWithEnv_loop env cmd = Some r -> exists suffix, r = cmd +:+ suffix.
Proof.
  revert cmd; induction env as [|e env IH]; intros cmd; [discriminate|].
  destruct (empty (trim (name e))) eqn:He.
  - cbn [cmdWithEnv_loop]. rewrite He. intros [= <-].
    exists EmptyString. now rewrite append_nil_r.
  - apply empty_false in He. rewrite (cmdWithEnv_loop_step _ _ _ He).
    destruct (env_argument e) as [arg|]; [|discriminate]. simpl.
    intros [suffix ->]%IH. exists (arg +:+ suffix). apply append_assoc.
Qed.

(** X13.  The delegated command line always starts with the formatted
    [paramsAlloc]: the edits only append to it.  It is [paramsAlloc] itself
    when the caller passes no array, or an array whose first entry has an
    empty trimmed name. *)
Theorem X13_command_line_extends_paramsAlloc :
  (forall paramsAlloc (array : option (list EnvironmentModification)) r,
      commandLine paramsAlloc array = Some r ->
      exists suffix, r = paramsAlloc +:+ suffix) /\
  (forall paramsAlloc, commandLine paramsAlloc None = Some paramsAlloc) /\
  (forall paramsAlloc stop rest,
      trim (name stop) = EmptyString ->
      commandLine paramsAlloc (Some (stop :: rest)) = Some paramsAlloc).
Proof.
  split; [|split].
  - intros paramsAlloc [env|] r; simpl.
    + apply cmdWithEnv_loop_extends.
    + intros [= <-]. exists EmptyString. now rewrite append_nil_r.
  - reflexivity.
  - intros paramsAlloc stop rest Hstop. simpl. now rewrite Hstop.
Qed.

(** X13 at the array [sample_env]. *)
Lemma X13_command_line_extends_paramsAlloc_witness :
  exists suffix,
    "cmd +env-append-semicolon " +:+ quoted "PATH" +:+ quoted "C:\dir\\" +:+
    " +env-replace " +:+ quoted "X" +:+ quoted "a b" = "cmd" +:+ suffix.
Proof.
  apply (proj1 X13_command_line_extends_paramsAlloc "cmd" (Some sample_env)).
  reflexivity.
Defined.

Lemma escape_quotes_head s r : escape_quotes s <> String dquote r.
Proof.
  destruct s as [|c s]; simpl; [discriminate|].
  destruct (Ascii.eqb_spec c dquote); [discriminate | congruence].
Qed.

Lemma escape_quotes_empty s : escape_quotes s = EmptyString -> s = EmptyString.
Proof.
  destruct s as [|c s]; simpl; [reflexivity|].
  destruct (Ascii.eqb c dquote); discriminate.
Qed.

Lemma unescape_escape_quotes s : unescape_quotes (escape_quotes s) = s.
Proof.
  induction s as [|c s IH]; [reflexivity|]. cbn [escape_quotes].
  destruct (Ascii.eqb_spec c dquote) as [->|Hc].
  - cbn. now rewrite IH.
  - cbn [unescape_quotes]. destruct (escape_quotes s) as [|d t] eqn:Hesc.
    + apply escape_quotes_empty in Hesc. now subst.
    + destruct (Ascii.eqb_spec d dquote) as [->|Hd].
      * now apply escape_quotes_head in Hesc.
      * rewrite andb_false_r. now rewrite IH.
Qed.

Lemma backslash_not_dquote : backslash <> dquote.
Proof. discriminate. Qed.

Lemma escaped_quote_follows_backslash s l r :
  escape_quotes s = l +:+ String dquote r -> back l = Some backslash.
Proof.
  revert l; induction s as [|c s IH]; intros l; cbn [escape_quotes].
  - destruct l; discriminate.
  - destruct (Ascii.eqb_spec c dquote) as [->|Hc].
    + destruct l as [|x [|y l]]; simpl.
      * now intros [= H _].
      * intros [= <- _]. reflexivity.
      * intros [= <- <- Hrest]. apply IH in Hrest.
        change (back (String backslash (String dquote l)) = Some backslash).
        now rewrite !back_cons, Hrest.
    + destruct l as [|x l]; [simpl; congruence|].
      change (String x l +:+ String dquote r) with (String x (l +:+ String dquote r)).
      intros [= <- Hrest]. apply IH in Hrest. now rewrite back_cons, Hrest.
Qed.

Lemma back_snoc s c : back (s +:+ String c EmptyString) = Some c.
Proof.
  induction s as [|d s IH]; [reflexivity|].
  change (String d s +:+ String c EmptyString) with (String d (s +:+ String c EmptyString)).
  now rewrite back_cons, IH.
Qed.

Lemma append_snoc_inj s1 s2 c :
  s1 +:+ String c EmptyString = s2 +:+ String c EmptyString -> s1 = s2.
Proof.
  revert s2; induction s1 as [|a s1 IH]; intros [|b s2]; simpl; try reflexivity.
  - intros [= _ H]. destruct s2; discriminate.
  - intros [= _ H]. destruct s1; discriminate.
  - intros [= -> H]. f_equal. now apply IH.
Qed.

(** X14.  The escaping of lines 600-617 puts a backslash directly before
    every double quote of the parameter, and it gives different texts for
    different parameters.  This says how the text is made, not how the
    helper reads it. *)
Theorem X14_escaping_is_injective :
  (forall s l r,
      escape_quotes s = l +:+ String dquote r -> back l = Some backslash) /\
  (forall s1 s2 r1 r2,
      s1 <> s2 ->
      escape_parameter s1 = Some r1 -> escape_parameter s2 = Some r2 -> r1 <> r2).
Proof.
  split.
  - apply escaped_quote_follows_backslash.
  - intros s1 s2 r1 r2 Hne H1 H2 <-. apply Hne.
    unfold escape_parameter, double_last_backslash in *.
    rewrite back_escape_quotes in H1, H2.
    destruct (back s1) as [c1|] eqn:Hb1; [|discriminate].
    destruct (back s2) as [c2|] eqn:Hb2; [|discriminate].
    simpl in H1, H2.
    rewrite <- (unescape_escape_quotes s1), <- (unescape_escape_quotes s2). f_equal.
    destruct (Ascii.eqb_spec c1 backslash) as [->|Hc1];
      destruct (Ascii.eqb_spec c2 backslash) as [->|Hc2];
      injection H1 as <-; injection H2 as H2.
    + now apply append_snoc_inj in H2.
    + exfalso. apply Hc2.
      assert (back (escape_quotes s2) = Some backslash) as Hb
        by (rewrite H2; apply back_snoc).
      rewrite back_escape_quotes, Hb2 in Hb. congruence.
    + exfalso. apply Hc1.
      assert (back (escape_quotes s1) = Some backslash) as Hb
        by (rewrite <- H2; apply back_snoc).
      rewrite back_escape_quotes, Hb1 in Hb. congruence.
    + now symmetry.
Qed.

(** X14 at the parameters [x\] and [x\\]: the texts are [x\\] and
    [x\\\]. *)
Lemma X14_escaping_is_injective_witness : "x\\" <> "x\\\".
Proof.
  apply (proj2 X14_escaping_is_injective "x\" "x\\" "x\\" "x\\\");
    [discriminate | reflexivity | reflexivity].
Defined.

Lemma optstr_byte_letters b :
  Forall (fun c => (97 <= N_of_ascii c <= 112)%N) (list_ascii_of_string (optstr_byte b)).
Proof. destruct b; repeat constructor; cbv; congruence. Qed.

Lemma list_ascii_of_string_app s1 s2 :
  list_ascii_of_string (s1 +:+ s2) = list_ascii_of_string s1 ++ list_ascii_of_string s2.
Proof. induction s1; simpl; congruence. Qed.

(** X15.  The text of the options is made of the sixteen letters [a] to
    [p] only, whatever the bytes: it holds no double quote, no backslash
    and no blank. *)
Theorem X15_optstr_is_made_of_letters_a_to_p :
  forall B,
    Forall (fun c => (97 <= N_of_ascii c <= 112)%N) (list_ascii_of_string (optstr B)) /\
    (dquote ∉ list_ascii_of_string (optstr B)) /\
    (backslash ∉ list_ascii_of_string (optstr B)) /\
    (" "%char ∉ list_ascii_of_string (optstr B)).
Proof.
  intros B.
  assert (Forall (fun c => (97 <= N_of_ascii c <= 112)%N)
            (list_ascii_of_string (optstr B))) as Hall.
  { induction B as [|b B IH]; [constructor|].
    cbn [optstr]. rewrite list_ascii_of_string_app. apply Forall_app.
    split; [apply optstr_byte_letters | exact IH]. }
  split; [exact Hall|]. rewrite Forall_forall in Hall.
  repeat split; intros Hin; apply Hall in Hin; cbv in Hin; destruct Hin; congruence.
Qed.

End InjectionMore.

(** ** The wait for a debugger: its bound *)

Section DebuggerWait.

Variable debugger : nat -> bool.

Lemma uint32_bound_multiple_of_8 d : 0 <= uint32 (d * 1000) <= 2 ^ 32 - 8.
Proof.
  unfold uint32. replace (d * 1000) with (8 * (d * 125)) by lia.
  change (2 ^ 32) with (8 * 2 ^ 29). rewrite Z.mul_mod_distr_l by lia.
  pose proof (Z.mod_pos_bound (d * 125) (2 ^ 29) ltac:(lia)). lia.
Qed.

Lemma debugger_wait_loop_spec bound fuel k :
  0 <= bound <= 2 ^ 32 - 8 ->
  10 * Z.of_nat k <= bound ->
  bound / 10 < Z.of_nat fuel + Z.of_nat k ->
  exists n,
    debugger_wait_loop debugger bound fuel (10 * Z.of_nat k) k =
      Some (debugger (Nat.pred n), 10 * Z.of_nat n, n) /\
    (k < n)%nat /\ Z.of_nat n <= bound / 10 + 1 /\
    (forall j, (k <= j)%nat -> (j < Nat.pred n)%nat -> debugger j = false) /\
    (debugger (Nat.pred n) = true \/ 10 * Z.of_nat n > bound).
Proof.
  intros Hbound. revert k. induction fuel as [|fuel IH]; intros k Hk Hfuel.
  - exfalso. Z.to_euclidean_division_equations. lia.
  - cbn [debugger_wait_loop].
    assert (uint32 (10 * Z.of_nat k + 10) = 10 * Z.of_nat (S k)) as ->.
    { unfold uint32. rewrite Z.mod_small; lia. }
    destruct (Z.gtb_spec (10 * Z.of_nat (S k)) bound) as [Hgt|Hle].
    + exists (S k). cbn [Nat.pred]. repeat split; try lia.
      Z.to_euclidean_division_equations; lia.
    + destruct (debugger k) eqn:Hdbg.
      * exists (S k). cbn [Nat.pred]. rewrite Hdbg. repeat split; try lia; auto.
        Z.to_euclidean_division_equations; lia.
      * destruct (IH (S k)) as (n & Hloop & Hn1 & Hn2 & Hfalse & Hstop); try lia.
        exists n. split; [exact Hloop|]. repeat split; try lia; auto.
        intros j Hj1 Hj2. destruct (decide (j = k)) as [->|Hjk]; [exact Hdbg|].
        apply Hfalse; lia.
Qed.

(** X16.  The wait for a debugger always ends.  With a delay of [d]
    seconds ([0 < d < 2^32]) and [bound] the 32-bit product [d * 1000], it
    makes [n] passes, each polling once and then sleeping 10 milliseconds,
    where [n] is at least 1 and at most [bound / 10 + 1], hence at most
    [d * 100 + 1]: it stops at the first pass whose poll reports a
    debugger, and otherwise at the first pass after which the time slept
    exceeds [bound].  With a delay of 0 nothing is polled. *)
Theorem X16_debugger_wait_is_bounded :
  (forall d,
      0 < d < 2 ^ 32 ->
      let bound := uint32 (d * 1000) in
      exists n,
        debugger_wait debugger d = Some (debugger (Nat.pred n), 10 * Z.of_nat n, n) /\
        (1 <= n)%nat /\
        Z.of_nat n <= bound / 10 + 1 /\
        Z.of_nat n <= d * 100 + 1 /\
        (forall j, (j < Nat.pred n)%nat -> debugger j = false) /\
        (debugger (Nat.pred n) = true \/ 10 * Z.of_nat n > bound)) /\
  debugger_wait debugger 0 = Some (false, 0, 0%nat).
Proof.
  split; [|reflexivity].
  intros d Hd bound. unfold debugger_wait.
  destruct (Z.gtb_spec d 0) as [_|]; [|lia]. fold bound.
  pose proof (uint32_bound_multiple_of_8 d) as Hbound. fold bound in Hbound.
  destruct (debugger_wait_loop_spec bound (Z.to_nat (bound / 10 + 1)) 0 Hbound)
    as (n & Hloop & Hn1 & Hn2 & Hfalse & Hstop).
  - lia.
  - rewrite Z2Nat.id; [lia|]. Z.to_euclidean_division_equations; lia.
  - exists n. split; [exact Hloop|]. repeat split; try lia.
    + assert (bound <= d * 1000).
      { unfold bound, uint32. apply Z.mod_le; lia. }
      Z.to_euclidean_division_equations; lia.
    + intros j Hj. apply Hfalse; lia.
    + exact Hstop.
Qed.

End DebuggerWait.

(** X16 at a delay of one second and a debugger that attaches before the
    fourth poll. *)
Lemma X16_debugger_wait_is_bounded_witness :
  exists n,
    debugger_wait (fun k => (3 <=? k)%nat) 1 =
      Some ((3 <=? Nat.pred n)%nat, 10 * Z.of_nat n, n) /\
    (1 <= n)%nat /\
    Z.of_nat n <= uint32 (1 * 1000) / 10 + 1 /\
    Z.of_nat n <= 1 * 100 + 1 /\
    (forall j, (j < Nat.pred n)%nat -> (3 <=? j)%nat = false) /\
    ((3 <=? Nat.pred n)%nat = true \/ 10 * Z.of_nat n > uint32 (1 * 1000)).
Proof.
  apply (proj1 (X16_debugger_wait_is_bounded (fun k => (3 <=? k)%nat)) 1).
  lia.
Defined.

(** ** Launching and the helper executables: properties *)

Section Helpers.

Implicit Types (app dir file : string).

Lemma wcscat_s_fits n dest src :
  (String.length dest + String.length src < n)%nat ->
  wcscat_s n dest src = Some (dest +:+ src).
Proof.
  intros Hfit. unfold wcscat_s.
  now destruct (Nat.ltb_spec (String.length dest + String.length src) n); [|lia].
Qed.

Lemma RunProcess_paramsAlloc_spec app cmdLine :
  RunProcess_paramsAlloc app cmdLine =
  Some (in_quotes app +:+
        match given cmdLine with
        | Some wcmd => " " +:+ wcmd
        | None => EmptyString
        end).
Proof.
  unfold RunProcess_paramsAlloc, in_quotes.
  destruct (given cmdLine) as [wcmd|].
  - unfold wcscpy_s.
    destruct (Nat.ltb_spec (String.length (String dquote EmptyString))
                (String.length app + 10 + String.length wcmd)) as [_|H];
      [|simpl in H; lia].
    cbn [mbind option_bind].
    rewrite wcscat_s_fits by (simpl; lia). cbn [mbind option_bind].
    rewrite wcscat_s_fits by (simpl; rewrite ?append_length; simpl; lia).
    cbn [mbind option_bind].
    rewrite wcscat_s_fits by (simpl; rewrite ?append_length; simpl; lia).
    cbn [mbind option_bind].
    rewrite wcscat_s_fits by (simpl; rewrite ?append_length; simpl; lia).
    f_equal. simpl. f_equal. now rewrite !append_assoc.
  - unfold wcscpy_s.
    destruct (Nat.ltb_spec (String.length (String dquote EmptyString))
                (String.length app + 10)) as [_|H];
      [|simpl in H; lia].
    cbn [mbind option_bind].
    rewrite wcscat_s_fits by (simpl; lia). cbn [mbind option_bind].
    rewrite wcscat_s_fits by (simpl; rewrite ?append_length; simpl; lia).
    f_equal. simpl. f_equal. now rewrite append_nil_r.
Qed.

(** X17.  The buffer that [RunProcess] allocates always holds the
    parameters: none of its bounded copies fails, whatever the
    application path and the command line.  The parameters are the path
    between double quotes, followed by a blank and the caller's command
    line when that is given and not empty; the working directory is the
    caller's when given and not empty, and the directory of the
    application otherwise; the process id returned is 0 when
    [CreateProcessW] fails. *)
Theorem X17_RunProcess_buffer_holds_the_parameters :
  forall dirname CreateProcessW app workingDir cmdLine,
    RunProcess dirname CreateProcessW app workingDir cmdLine =
    Some (default 0
            (CreateProcessW
               (in_quotes app +:+
                match given cmdLine with
                | Some wcmd => " " +:+ wcmd
                | None => EmptyString
                end)
               (match given workingDir with
                | Some w => w
                | None => dirname app
                end))).
Proof.
  intros dirname CreateProcessW app workingDir cmdLine. unfold RunProcess.
  now rewrite RunProcess_paramsAlloc_spec.
Qed.

Lemma wcsrchr_directory dir file :
  wcsrchr file backslash = None ->
  wcsrchr (dir +:+ String backslash file) backslash = Some (String.length dir).
Proof.
  intros Hfile. induction dir as [|a dir IH].
  - cbn [String.append wcsrchr String.length]. rewrite Hfile. reflexivity.
  - change (String a dir +:+ String backslash file)
      with (String a (dir +:+ String backslash file)).
    cbn [wcsrchr String.length]. now rewrite IH.
Qed.

Lemma terminate_at_length s r : terminate_at (String.length s) (s +:+ r) = s.
Proof.
  unfold terminate_at. induction s as [|a s IH]; simpl.
  - now destruct r.
  - now rewrite IH.
Qed.

Lemma x86_helper_path_spec dir file :
  wcsrchr file backslash = None ->
  (String.length dir + 21 < MAX_PATH)%nat ->
  x86_helper_path (dir +:+ String backslash file) =
  Some (dir +:+ "\x86\renderdoccmd.exe").
Proof.
  intros Hfile Hfit. unfold x86_helper_path.
  rewrite (wcsrchr_directory dir file Hfile), terminate_at_length.
  apply wcscat_s_fits. simpl. lia.
Qed.

Lemma globalhook_format_length path m l o :
  String.length (globalhook_format path m l o) =
  (String.length path + String.length m + String.length l + String.length o + 46)%nat.
Proof.
  unfold globalhook_format, in_quotes. simpl.
  rewrite !append_length. simpl. rewrite !append_length. simpl.
  rewrite !append_length. simpl. rewrite !append_length. simpl. lia.
Qed.

Lemma _snwprintf_s_fits text :
  (String.length text < 2047)%nat -> _snwprintf_s text = Some text.
Proof.
  intros Hfit. unfold _snwprintf_s.
  now destruct (Nat.ltb_spec (String.length text) 2047); [|lia].
Qed.

(** X18.  For a library at [dir\file], [StartGlobalHook] starts the helper
    [dir\renderdoccmd.exe] and then, in a 64-bit build and only when that
    helper started, the helper [dir\x86\renderdoccmd.exe], both with the
    same match, log and options arguments; the second path is the one
    that [InjectIntoProcess] delegates to.  Nothing is started without a
    path to match.  (The paths fit their buffer of [MAX_PATH] elements
    and the command lines their buffer of 2047.) *)
Theorem X18_global_hook_starts_both_helpers :
  (forall dir file CreateProcessW wpathmatch logfile b,
      wcsrchr file backslash = None ->
      (String.length dir + 21 < MAX_PATH)%nat ->
      let renderdocPath := dir +:+ String backslash file in
      let wlogfile := default EmptyString logfile in
      let native :=
        globalhook_format (dir +:+ "\renderdoccmd.exe") wpathmatch wlogfile (optstr b) in
      let x86 :=
        globalhook_format (dir +:+ "\x86\renderdoccmd.exe") wpathmatch wlogfile (optstr b) in
      (String.length x86 < 2047)%nat ->
      StartGlobalHook true renderdocPath CreateProcessW (Some wpathmatch) logfile (Some b) =
        Some (if CreateProcessW native then [native; x86] else [native]) /\
      StartGlobalHook false renderdocPath CreateProcessW (Some wpathmatch) logfile (Some b) =
        Some [native] /\
      x86_helper_path renderdocPath = Some (dir +:+ "\x86\renderdoccmd.exe")) /\
  (forall WIN64 renderdocPath CreateProcessW logfile opts,
      StartGlobalHook WIN64 renderdocPath CreateProcessW None logfile opts = Some []).
Proof.
  split; [|reflexivity].
  intros dir file CreateProcessW wpathmatch logfile b Hfile Hdir
    renderdocPath wlogfile native x86 Hfit.
  assert (String.length native < 2047)%nat as Hfit'.
  { unfold native, x86 in *. rewrite globalhook_format_length in *.
    rewrite append_length in *. simpl in *. lia. }
  assert (forall W,
             StartGlobalHook W renderdocPath CreateProcessW (Some wpathmatch) logfile
               (Some b) =
             Some (if CreateProcessW native
                   then if W then [native; x86] else [native]
                   else [native])) as Hboth.
  { intros W. unfold StartGlobalHook, renderdocPath.
    rewrite (wcsrchr_directory dir file Hfile), terminate_at_length.
    rewrite wcscat_s_fits by (simpl; lia). cbn [mbind option_bind].
    fold wlogfile. fold native. rewrite (_snwprintf_s_fits native Hfit').
    cbn [mbind option_bind].
    destruct (CreateProcessW native); cbn [negb]; [|reflexivity].
    destruct W; cbn [negb]; [|reflexivity].
    rewrite terminate_at_length.
    rewrite wcscat_s_fits by (simpl; lia). cbn [mbind option_bind].
    fold x86. now rewrite (_snwprintf_s_fits x86 Hfit). }
  split; [|split].
  - rewrite Hboth. now destruct (CreateProcessW native).
  - rewrite Hboth. now destruct (CreateProcessW native).
  - now apply x86_helper_path_spec.
Qed.

(** X18 at the library [C:\rd\renderdoc.dll]. *)
Lemma X18_global_hook_starts_both_helpers_witness :
  x86_helper_path ("C:\rd" +:+ String backslash "renderdoc.dll") =
  Some ("C:\rd" +:+ "\x86\renderdoccmd.exe").
Proof.
  apply (proj1 X18_global_hook_starts_both_helpers
           "C:\rd" "renderdoc.dll" (fun _ => true) "game.exe" None [x00; x10]).
  - reflexivity.
  - unfold MAX_PATH. simpl. lia.
  - vm_compute. lia.
Defined.

End Helpers.

(** ** [InjectIntoProcess] as a whole: properties *)

Section Orchestrator.

Implicit Types (os : InjectOS) (steps done : list Step).

Lemma step_count_app s l1 l2 :
  step_count s (l1 ++ l2) = (step_count s l1 + step_count s l2)%nat.
Proof. apply count_occ_app. Qed.

Lemma step_count_cons s x l :
  step_count s (x :: l) = ((if decide (x = s) then 1 else 0) + step_count s l)%nat.
Proof.
  unfold step_count. simpl. destruct (Step_eq_dec x s); destruct (decide (x = s));
    try contradiction; reflexivity.
Qed.

Lemma step_count_polls s polls :
  s <> sCheckRemoteDebuggerPresent -> s <> sSleep 10 ->
  step_count s (concat (replicate polls [sCheckRemoteDebuggerPresent; sSleep 10])) = 0%nat.
Proof.
  intros H1 H2. induction polls as [|polls IH]; [reflexivity|].
  cbn [replicate concat app]. rewrite !step_count_cons, IH.
  destruct (decide (sCheckRemoteDebuggerPresent = s)) as [E|];
    [symmetry in E; contradiction|].
  destruct (decide (sSleep 10 = s)) as [E|]; [symmetry in E; contradiction|].
  reflexivity.
Qed.

Lemma step_count_calls s (calls : list RemoteCall) :
  (forall c, s <> sInjectFunctionCall c) ->
  step_count s (sInjectFunctionCall <$> calls) = 0%nat.
Proof.
  intros Hs. induction calls as [|c calls IH]; [reflexivity|].
  cbn [fmap list_fmap]. rewrite step_count_cons, IH.
  destruct (decide (sInjectFunctionCall c = s)) as [Heq|]; [|reflexivity].
  symmetry in Heq. now apply Hs in Heq.
Qed.

Lemma step_count_InjectDLL h l libName load :
  InjectDLL l libName = Some load ->
  step_count (sCloseHandle h) load =
  (if decide (h = hLoaderThread)
   then if kernel32 l && VirtualAllocEx_ok l && CreateRemoteThread_ok l then 1 else 0
   else 0)%nat.
Proof.
  unfold InjectDLL. destruct (wcscpy_s (MAX_PATH + 1) libName); [|discriminate].
  cbn [mbind option_bind].
  destruct (kernel32 l), (VirtualAllocEx_ok l), (CreateRemoteThread_ok l);
    intros [= <-]; destruct h; reflexivity.
Qed.






(** The calls before the edits leave the control identifier as it is, and
    set the log file and the options that are given. *)
Lemma run_first_calls logfile opts p :
  exists lib,
    run_remote_calls (first_calls logfile opts) p = Some lib /\
    targetControlIdent (Inst lib) = targetControlIdent (Inst p) /\
    envCallbacks lib = envCallbacks p /\
    environ lib = environ p /\
    tempEnvMod lib = tempEnvMod p /\
    logFile (Inst lib) = default (logFile (Inst p)) logfile /\
    captureOptions (Inst lib) =
      match opts with
      | Some (b :: o) => b :: o
      | _ => captureOptions (Inst p)
      end.
Proof.
  unfold first_calls.
  destruct logfile as [l|], opts as [[|b o]|]; eexists; repeat split.
Qed.

Lemma last_leave steps w : last (steps ++ leave w) = Some (sCloseHandle hTarget).
Proof. unfold leave. now rewrite app_assoc, last_snoc. Qed.

Lemma step_count_leave w : step_count (sCloseHandle hTarget) (leave w) = 1%nat.
Proof. now destruct w. Qed.

Lemma step_count_leave_other s w :
  s <> sCloseHandle hTarget -> s <> sWaitForSingleObject hTarget ->
  step_count s (leave w) = 0%nat.
Proof.
  intros H1 H2. unfold leave. destruct w; cbn [app]; rewrite !step_count_cons;
    repeat case_decide; subst; try contradiction; reflexivity.
Qed.

Lemma step_count_nil s : step_count s [] = 0%nat.
Proof. reflexivity. Qed.

Ltac count_steps :=
  repeat first
    [ rewrite step_count_app
    | rewrite step_count_leave
    | rewrite step_count_leave_other by discriminate
    | rewrite step_count_polls by discriminate
    | rewrite step_count_calls by discriminate
    | rewrite step_count_cons
    | rewrite step_count_nil ];
  repeat case_decide; try discriminate; try congruence; try lia.

(** The two outcomes of the direct injection. *)
Lemma inject_directly_inv os dll env logfile opts w done ret steps :
  inject_directly os dll env logfile opts w done = Some (ret, steps) ->
  exists load,
    InjectDLL (loader os) (renderdocPath os) = Some load /\
    let found := FindRemoteDLL (modules os) (dll +:+ ".dll") in
    (found.1 = 0 /\ ret = 0 /\
     steps = (done ++ load ++ [sFindRemoteDLL found.2]) ++
             [sRDCERR "Can't locate the library"] ++ leave w) \/
    (found.1 <> 0 /\
     ret = uint32 (targetControlIdent (Inst (library os))) /\
     exists calls,
       boot_calls logfile opts env = Some calls /\
       steps = (done ++ load ++ [sFindRemoteDLL found.2]) ++
               (sInjectFunctionCall <$> calls) ++ leave w).
Proof.
  unfold inject_directly. intros H.
  destruct (InjectDLL (loader os) (renderdocPath os)) as [load|]; [|discriminate].
  cbn [mbind option_bind] in H. exists load. split; [reflexivity|].
  destruct (FindRemoteDLL (modules os) (dll +:+ ".dll")) as [loc search].
  cbn [fst snd]. destruct (Z.eqb_spec loc 0) as [->|Hloc].
  - injection H as <- <-. left. auto.
  - destruct (run_first_calls logfile opts (library os)) as (lib & Hrun & Hident & _).
    rewrite Hrun in H. cbn [mbind option_bind] in H.
    destruct (env_calls env) as [edits|] eqn:Hedits; [|discriminate].
    cbn [mbind option_bind] in H. injection H as <- <-. right. split; [exact Hloc|].
    split.
    { unfold RENDERDOC_GetTargetControlIdent, GetTargetControlIdent. cbn [fst default].
      now rewrite Hident. }
    eexists. split; [|reflexivity].
    unfold boot_calls. rewrite Hedits. cbn [mbind option_bind].
    unfold first_calls. now rewrite <- app_assoc.
Qed.

(** The two outcomes of the delegation. *)
Lemma delegate_inv os pid env logfile opts w done ret steps :
  delegate os pid env logfile opts w done = Some (ret, steps) ->
  exists cmd,
    (CreateProcessW_helper os cmd = None /\ ret = 0 /\
     steps = done ++ [sCreateProcessW cmd; sRDCERR "Can't spawn x86 renderdoccmd"]) \/
    (exists exitCode,
        CreateProcessW_helper os cmd = Some exitCode /\ ret = uint32 exitCode /\
        steps = done ++
                [sCreateProcessW cmd; sResumeThread hHelperThread;
                 sWaitForSingleObject hHelperThread; sCloseHandle hHelperThread;
                 sGetExitCodeProcess; sCloseHandle hHelperProcess] ++
                leave w).
Proof.
  unfold delegate. intros H.
  destruct (x86_helper_path (renderdocPath os)) as [path|]; [|discriminate].
  destruct opts as [b|]; [|discriminate]. cbn [mbind option_bind] in H.
  destruct (_snwprintf_s _) as [paramsAlloc|]; [|discriminate].
  cbn [mbind option_bind] in H.
  destruct (commandLine paramsAlloc env) as [cmd|]; [|discriminate].
  cbn [mbind option_bind] in H. exists cmd.
  destruct (CreateProcessW_helper os cmd) as [exitCode|]; injection H as <- <-.
  - right. eauto.
  - left. auto.
Qed.





(** X20.  [InjectIntoProcess] opens the target once.  It closes the
    target's handle exactly once, as its last step, on every path but two,
    on which it returns 0 and leaves the handle open: when the bitness of
    the controller itself cannot be determined (32-bit build), and when the
    32-bit helper cannot be started (64-bit build). *)
Theorem X20_target_handle_is_closed_last_except_on_two_paths :
  forall os dll pid d env logfile opts w ret steps,
    InjectIntoProcess os dll pid d env logfile opts w = Some (ret, steps) ->
    step_count sOpenProcess steps = 1%nat /\
    ((step_count (sCloseHandle hTarget) steps = 1%nat /\
      last steps = Some (sCloseHandle hTarget)) \/
     (step_count (sCloseHandle hTarget) steps = 0%nat /\ ret = 0 /\
      ((WIN64 os = false /\ IsWow64Process_self os = None /\
        last steps = Some (sRDCERR "Couldn't determine bitness of self")) \/
       (WIN64 os = true /\ IsWow64Process_target os = Some true /\
        last steps = Some (sRDCERR "Can't spawn x86 renderdoccmd"))))).
Proof.
  intros os dll pid d env logfile opts w ret steps H.
  unfold InjectIntoProcess in H.
  destruct (debugger_wait (debugger_present os) d) as [[[attached timeout] polls]|];
    [|discriminate].
  cbn [mbind option_bind] in H.
  assert (forall done,
             inject_directly os dll env logfile opts w done = Some (ret, steps) ->
             step_count sOpenProcess done = 1%nat ->
             step_count (sCloseHandle hTarget) done = 0%nat ->
             step_count sOpenProcess steps = 1%nat /\
             step_count (sCloseHandle hTarget) steps = 1%nat /\
             last steps = Some (sCloseHandle hTarget)) as Hdirect.
  { intros done Hd Hopen Hclose.
    destruct (inject_directly_inv _ _ _ _ _ _ _ _ _ Hd) as (load & Hload & Hcases).
    pose proof (step_count_InjectDLL hTarget _ _ _ Hload) as Hc. simpl in Hc.
    assert (step_count sOpenProcess load = 0%nat) as Ho.
    { revert Hload. unfold InjectDLL.
      destruct (wcscpy_s (MAX_PATH + 1) (renderdocPath os)); [|discriminate].
      cbn [mbind option_bind].
      destruct (kernel32 (loader os)), (VirtualAllocEx_ok (loader os)),
        (CreateRemoteThread_ok (loader os)); intros [= <-]; reflexivity. }
    destruct Hcases as [(_ & _ & ->) | (_ & _ & calls & _ & ->)].
    - split; [|split].
      + rewrite !step_count_app, Hopen, Ho. count_steps.
      + rewrite !step_count_app, Hclose, Hc. count_steps.
      + rewrite app_assoc. apply last_leave.
    - split; [|split].
      + rewrite !step_count_app, Hopen, Ho. count_steps.
      + rewrite !step_count_app, Hclose, Hc. count_steps.
      + rewrite app_assoc. apply last_leave. }
  destruct (IsWow64Process_target os) as [isWow64|] eqn:Htarget.
  - destruct (WIN64 os) eqn:Hbuild.
    + destruct isWow64.
      * destruct (delegate_inv _ _ _ _ _ _ _ _ _ H)
          as (cmd & [(Hspawn & -> & ->) | (exitCode & Hspawn & -> & ->)]).
        -- split; [count_steps|]. right. split; [count_steps|]. split; [reflexivity|].
           right. repeat split.
           change [sCreateProcessW cmd; sRDCERR "Can't spawn x86 renderdoccmd"]
             with ([sCreateProcessW cmd] ++ [sRDCERR "Can't spawn x86 renderdoccmd"]).
           now rewrite app_assoc, last_snoc.
        -- split; [count_steps|]. left. split; [count_steps|].
           rewrite app_assoc. apply last_leave.
      * destruct (Hdirect _ H) as (H1 & H2 & H3); [count_steps..|]. auto.
    + destruct (IsWow64Process_self os) as [selfWow64|] eqn:Hself.
      * destruct (selfWow64 && negb isWow64).
        -- injection H as <- <-. split; [count_steps|]. left. split; [count_steps|].
           rewrite app_comm_cons, last_app. reflexivity.
        -- destruct (Hdirect _ H) as (H1 & H2 & H3); [count_steps..|]. auto.
      * injection H as <- <-. split; [count_steps|]. right. split; [count_steps|].
        split; [reflexivity|]. left. repeat split.
        rewrite app_comm_cons, last_app. reflexivity.
  - injection H as <- <-. split; [count_steps|]. left. split; [count_steps|].
    rewrite app_comm_cons, last_app. reflexivity.
Qed.

(** X20 at [sample_os] with the array [sample_env]. *)
Lemma X20_target_handle_is_closed_last_except_on_two_paths_witness :
  exists ret steps,
    InjectIntoProcess sample_os "renderdoc" 1234 0 (Some sample_env)
      (Some "C:\log.rdc") (Some [x01; x02]) true = Some (ret, steps) /\
    step_count sOpenProcess steps = 1%nat /\
    ((step_count (sCloseHandle hTarget) steps = 1%nat /\
      last steps = Some (sCloseHandle hTarget)) \/
     (step_count (sCloseHandle hTarget) steps = 0%nat /\ ret = 0 /\
      ((WIN64 sample_os = false /\ IsWow64Process_self sample_os = None /\
        last steps = Some (sRDCERR "Couldn't determine bitness of self")) \/
       (WIN64 sample_os = true /\ IsWow64Process_target sample_os = Some true /\
        last steps = Some (sRDCERR "Can't spawn x86 renderdoccmd"))))).
Proof.
  eexists _, _. split; [reflexivity|].
  apply (X20_target_handle_is_closed_last_except_on_two_paths sample_os "renderdoc" 1234 0
           (Some sample_env) (Some "C:\log.rdc") (Some [x01; x02]) true).
  reflexivity.
Defined.

End Orchestrator.

(** ** The direct injection: when it is undefined *)

Section DirectInjection.

Lemma debugger_wait_total debugger d : is_Some (debugger_wait debugger d).
Proof.
  unfold debugger_wait. destruct (Z.gtb_spec d 0) as [Hd|Hd]; [|eauto].
  pose proof (uint32_bound_multiple_of_8 d) as Hbound.
  destruct (debugger_wait_loop_spec debugger (uint32 (d * 1000))
              (Z.to_nat (uint32 (d * 1000) / 10 + 1)) 0 Hbound) as (n & Hloop & _).
  - lia.
  - rewrite Z2Nat.id; [lia|]. Z.to_euclidean_division_equations; lia.
  - change (10 * Z.of_nat 0) with 0 in Hloop. rewrite Hloop. eauto.
Qed.

Lemma env_calls_loop_None_iff entries :
  env_calls_loop entries = None <->
  existsb (fun e => empty (trim (name e))) entries = false.
Proof.
  induction entries as [|e entries IH]; cbn [env_calls_loop existsb]; [easy|].
  destruct (empty (trim (name e))); cbn [orb]; [easy|].
  rewrite <- IH. destruct (env_calls_loop entries) as [[calls last_entry]|];
    cbn [mbind option_bind]; easy.
Qed.

Lemma env_calls_None_iff env : env_calls env = None <-> has_terminator env = false.
Proof.
  destruct env as [entries|]; cbn [env_calls has_terminator]; [|easy].
  rewrite <- env_calls_loop_None_iff.
  destruct (env_calls_loop entries) as [[calls last_entry]|]; cbn [mbind option_bind]; easy.
Qed.

Lemma InjectDLL_is_Some l libName :
  (String.length libName <= MAX_PATH)%nat -> is_Some (InjectDLL l libName).
Proof.
  intros Hfit. unfold InjectDLL, wcscpy_s.
  destruct (Nat.ltb_spec (String.length libName) (MAX_PATH + 1)) as [_|Hlong]; [|lia].
  cbn [mbind option_bind].
  destruct (negb (kernel32 l)), (negb (VirtualAllocEx_ok l)); eauto.
Qed.

(** X21.  On the direct injection the one undefined step of
    [InjectIntoProcess] is the read beyond the caller's array: with the
    path of the library in its buffer of [MAX_PATH] elements, the call is
    undefined exactly when the library was located in the target and the
    array is given without a terminating entry.  When the library is not
    located the array is not read at all; the copy in [InjectDLL], the
    wait for a debugger, the log file and the options are never at fault.
    The waits on threads and on the target are steps that the model takes
    to complete, so this is a statement on undefined behaviour, not on
    the call coming back. *)
Theorem X21_direct_injection_is_undefined_iff :
  forall os dll pid d env logfile opts w,
    injects_directly os = true ->
    (String.length (renderdocPath os) < MAX_PATH)%nat ->
    InjectIntoProcess os dll pid d env logfile opts w = None <->
    (FindRemoteDLL (modules os) (dll +:+ ".dll")).1 <> 0 /\ has_terminator env = false.
Proof.
  intros os dll pid d env logfile opts w Hdirect Hpath.
  unfold InjectIntoProcess.
  destruct (debugger_wait_total (debugger_present os) d) as [[[attached timeout] polls] ->].
  cbn [mbind option_bind].
  assert (forall done,
             inject_directly os dll env logfile opts w done = None <->
             (FindRemoteDLL (modules os) (dll +:+ ".dll")).1 <> 0 /\
             has_terminator env = false) as Hbranch.
  { intros done. unfold inject_directly.
    rewrite <- env_calls_None_iff.
    destruct (InjectDLL_is_Some (loader os) (renderdocPath os)) as [load ->]; [lia|].
    cbn [mbind option_bind].
    destruct (FindRemoteDLL (modules os) (dll +:+ ".dll")) as [loc search].
    cbn [fst]. destruct (Z.eqb_spec loc 0) as [->|Hloc].
    - split; [discriminate | intros [Hloc _]; contradiction].
    - destruct (run_first_calls logfile opts (library os)) as (lib & -> & _).
      cbn [mbind option_bind].
      destruct (env_calls env); cbn [mbind option_bind].
      + split; [discriminate | intros [_ [=]]].
      + split; auto. }
  unfold injects_directly in Hdirect.
  destruct (IsWow64Process_target os) as [isWow64|]; [|discriminate].
  destruct (WIN64 os).
  - destruct isWow64; [discriminate|]. apply Hbranch.
  - destruct (IsWow64Process_self os) as [selfWow64|]; [|discriminate].
    destruct (selfWow64 && negb isWow64); [discriminate|]. apply Hbranch.
Qed.

(** X21 at [sample_os], in whose target the library is loaded, with the
    array of the first two entries of [sample_env], which has no
    terminating entry. *)
Lemma X21_direct_injection_is_undefined_iff_witness :
  InjectIntoProcess sample_os "renderdoc" 1234 5 (Some (take 2 sample_env))
    (Some "C:\log.rdc") (Some [x01; x02]) true = None.
Proof.
  apply (X21_direct_injection_is_undefined_iff sample_os "renderdoc" 1234 5
           (Some (take 2 sample_env)) (Some "C:\log.rdc") (Some [x01; x02]) true).
  - reflexivity.
  - unfold MAX_PATH. simpl. lia.
  - split; [vm_compute; discriminate | reflexivity].
Defined.

End DirectInjection.

(** ** The delegated command line as the helper reads it *)

Section Quoting.

Implicit Types (p s t rest : string) (n m : nat) (b leaves : bool) (c : ascii).

(** *** Runs of backslashes *)

Lemma backslashes_length n : String.length (backslashes n) = n.
Proof. induction n; simpl; congruence. Qed.

Lemma backslashes_snoc n t :
  backslashes n +:+ String backslash t = backslashes (S n) +:+ t.
Proof. induction n as [|n IH]; simpl; [reflexivity|]. now rewrite IH. Qed.

Lemma append_inv_head s t1 t2 : s +:+ t1 = s +:+ t2 -> t1 = t2.
Proof. induction s as [|c s IH]; simpl; [auto|]. intros [= H]. auto. Qed.

Lemma backslashes_quote_inj n m t1 t2 :
  backslashes n +:+ String dquote t1 = backslashes m +:+ String dquote t2 -> n = m.
Proof.
  revert m; induction n as [|n IH]; intros [|m]; simpl; try reflexivity.
  - intros H. discriminate H.
  - intros H. discriminate H.
  - intros [= H]. f_equal. now apply IH.
Qed.

Lemma half_bounds n : (2 * (n / 2) <= n < 2 * (n / 2) + 2)%nat.
Proof.
  pose proof (Nat.div_mod_eq n 2). pose proof (Nat.mod_upper_bound n 2). lia.
Qed.

(** *** The loop of the reader, case by case *)

Lemma scan_backslash leaves t n b :
  scan_argument leaves (String backslash t) n b = scan_argument leaves t (S n) b.
Proof. reflexivity. Qed.

Lemma scan_copy leaves c t n b :
  c <> backslash -> c <> dquote ->
  negb b && (Ascii.eqb c " "%char || Ascii.eqb c tab) = false ->
  scan_argument leaves (String c t) n b =
  (backslashes n +:+ String c (scan_argument leaves t 0 b).1, (scan_argument leaves t 0 b).2).
Proof.
  intros H1 H2 H3. cbn [scan_argument].
  apply Ascii.eqb_neq in H1, H2. rewrite H1, H2, H3.
  now destruct (scan_argument leaves t 0 b).
Qed.

Lemma scan_blank leaves t n :
  scan_argument leaves (String " "%char t) n false = (backslashes n, String " "%char t).
Proof. reflexivity. Qed.

Lemma scan_quote_odd leaves t n b :
  Nat.even n = false ->
  scan_argument leaves (String dquote t) n b =
  (backslashes (n / 2) +:+ String dquote (scan_argument leaves t 0 b).1,
   (scan_argument leaves t 0 b).2).
Proof.
  intros Hn. cbn [scan_argument].
  change (Ascii.eqb dquote backslash) with false.
  change (Ascii.eqb dquote dquote) with true. cbn iota. rewrite Hn.
  now destruct (scan_argument leaves t 0 b).
Qed.

Lemma scan_quote_even leaves t n b :
  Nat.even n = true ->
  scan_argument leaves (String dquote t) n b =
  match t with
  | String c t' =>
      if b && Ascii.eqb c dquote
      then (backslashes (n / 2) +:+
            String dquote (scan_argument leaves t' 0 (negb leaves)).1,
            (scan_argument leaves t' 0 (negb leaves)).2)
      else (backslashes (n / 2) +:+ (scan_argument leaves t 0 (negb b)).1,
            (scan_argument leaves t 0 (negb b)).2)
  | EmptyString =>
      (backslashes (n / 2) +:+ (scan_argument leaves t 0 (negb b)).1,
       (scan_argument leaves t 0 (negb b)).2)
  end.
Proof.
  intros Hn. cbn [scan_argument].
  change (Ascii.eqb dquote backslash) with false.
  change (Ascii.eqb dquote dquote) with true. cbn iota. rewrite Hn.
  destruct t as [|c t'].
  - now destruct (scan_argument leaves EmptyString 0 (negb b)).
  - destruct (b && Ascii.eqb c dquote).
    + now destruct (scan_argument leaves t' 0 (negb leaves)).
    + now destruct (scan_argument leaves (String c t') 0 (negb b)).
Qed.

Lemma scan_quote_toggle leaves c t n b :
  Nat.even n = true -> b && Ascii.eqb c dquote = false ->
  scan_argument leaves (String dquote (String c t)) n b =
  (backslashes (n / 2) +:+ (scan_argument leaves (String c t) 0 (negb b)).1,
   (scan_argument leaves (String c t) 0 (negb b)).2).
Proof. intros Hn Hc. rewrite (scan_quote_even _ _ _ _ Hn). cbv iota. now rewrite Hc. Qed.

Lemma scan_quote_double leaves t n :
  Nat.even n = true ->
  scan_argument leaves (String dquote (String dquote t)) n true =
  (backslashes (n / 2) +:+ String dquote (scan_argument leaves t 0 (negb leaves)).1,
   (scan_argument leaves t 0 (negb leaves)).2).
Proof. intros Hn. now rewrite (scan_quote_even _ _ _ _ Hn). Qed.

(** The double quote that opens a parameter. *)
Lemma scan_opening_quote leaves t :
  scan_argument leaves (String dquote t) 0 false = scan_argument leaves t 0 true.
Proof.
  rewrite scan_quote_even by reflexivity.
  destruct t; cbn [andb negb]; now destruct (scan_argument leaves _ 0 true).
Qed.

(** The reader never gives back more text than it was given. *)
Lemma scan_rest_length leaves t n b :
  (String.length (scan_argument leaves t n b).2 <= String.length t)%nat.
Proof.
  remember (String.length t) as k eqn:Hk.
  assert (String.length t <= k)%nat as Hle by lia. clear Hk.
  revert t n b Hle. induction k as [|k IH]; intros t n b Hle.
  - destruct t; [simpl; lia | simpl in Hle; lia].
  - destruct t as [|c t]; [simpl; lia|]. simpl in Hle.
    assert (forall n' b', String.length (scan_argument leaves t n' b').2 <= k)%nat as Ht.
    { intros n' b'. apply IH. lia. }
    cbn [scan_argument].
    destruct (Ascii.eqb c backslash); [specialize (Ht (S n) b); lia|].
    destruct (Ascii.eqb c dquote).
    + destruct (Nat.even n).
      * destruct t as [|c' t'].
        -- simpl. lia.
        -- destruct (b && Ascii.eqb c' dquote).
           ++ simpl in Hle. specialize (IH t' 0%nat (negb leaves) ltac:(lia)).
              destruct (scan_argument leaves t' 0 (negb leaves)). cbn [snd] in *. lia.
           ++ specialize (Ht 0%nat (negb b)).
              destruct (scan_argument leaves (String c' t') 0 (negb b)). cbn [snd] in *. lia.
      * specialize (Ht 0%nat b). destruct (scan_argument leaves t 0 b). cbn [snd] in *. lia.
    + destruct (negb b && (Ascii.eqb c " " || Ascii.eqb c tab)).
      * cbn [snd String.length]. lia.
      * specialize (Ht 0%nat b). destruct (scan_argument leaves t 0 b). cbn [snd] in *. lia.
Qed.

(** Inside a quoted part the blank is copied, so the argument does not
    end at it. *)
Lemma scan_blank_in_quotes leaves rest n :
  (scan_argument leaves (String " "%char rest) n true).2 <> String " "%char rest.
Proof.
  rewrite scan_copy by (reflexivity || discriminate). cbn [snd].
  intros H. pose proof (scan_rest_length leaves rest 0 true) as Hlen.
  rewrite H in Hlen. simpl in Hlen. lia.
Qed.

(** *** The text of a parameter, character by character *)

Lemma quoted_from_nil_0 rest :
  quoted_from 0 EmptyString rest = String dquote (String " "%char rest).
Proof. reflexivity. Qed.

Lemma quoted_from_nil_S n rest :
  quoted_from (S n) EmptyString rest =
  String backslash (String dquote (String " "%char rest)).
Proof. reflexivity. Qed.

Lemma quoted_from_backslash n s rest :
  quoted_from n (String backslash s) rest = String backslash (quoted_from (S n) s rest).
Proof. reflexivity. Qed.

Lemma quoted_from_quote n s rest :
  quoted_from n (String dquote s) rest =
  String backslash (String dquote (quoted_from 0 s rest)).
Proof. reflexivity. Qed.

Lemma quoted_from_copy n c s rest :
  c <> backslash -> c <> dquote ->
  quoted_from n (String c s) rest = String c (quoted_from 0 s rest).
Proof.
  intros H1 H2. unfold quoted_from. cbn [escape_quotes doubled].
  apply Ascii.eqb_neq in H1, H2. now rewrite H1, H2.
Qed.

(** The text of a parameter that is not empty does not start with a
    double quote. *)
Lemma quoted_from_head c s rest :
  exists d t, quoted_from 0 (String c s) rest = String d t /\ d <> dquote.
Proof.
  destruct (Ascii.eqb_spec c backslash) as [->|Hb].
  - rewrite quoted_from_backslash. eexists _, _. split; [reflexivity | discriminate].
  - destruct (Ascii.eqb_spec c dquote) as [->|Hq].
    + rewrite quoted_from_quote. eexists _, _. split; [reflexivity | discriminate].
    + rewrite quoted_from_copy by assumption. eexists _, _. split; [reflexivity | assumption].
Qed.

(** Once the reader stands outside the quoted part, or has counted
    backslashes before a double quote, it copies at most as many
    characters as the parameter still has. *)
Lemma scan_quoted_from_bound leaves s rest n b :
  (scan_argument leaves (quoted_from n s rest) n b).2 = String " "%char rest ->
  (String.length (scan_argument leaves (quoted_from n s rest) n b).1 <= n + String.length s)%nat.
Proof.
  revert n b. induction s as [|c s IH]; intros n b.
  - destruct n as [|n].
    + rewrite quoted_from_nil_0, scan_quote_toggle by (reflexivity || apply andb_false_r).
      destruct b; cbn [negb fst snd].
      * rewrite scan_blank. cbn. lia.
      * intros H. now apply scan_blank_in_quotes in H.
    + rewrite quoted_from_nil_S, scan_backslash.
      destruct (Nat.even (S (S n))) eqn:Heven.
      * rewrite scan_quote_toggle by (assumption || apply andb_false_r).
        destruct b; cbn [negb fst snd].
        -- rewrite scan_blank. cbn [fst]. intros _.
           rewrite append_length, backslashes_length. simpl String.length.
           pose proof (half_bounds (S (S n))). lia.
        -- intros H. now apply scan_blank_in_quotes in H.
      * rewrite scan_quote_odd by assumption. cbn [fst snd].
        destruct b.
        -- intros H. now apply scan_blank_in_quotes in H.
        -- rewrite scan_blank. cbn [fst]. intros _.
           rewrite append_length, backslashes_length. simpl String.length.
           destruct n as [|n]; [discriminate Heven|].
           pose proof (half_bounds (S (S (S n)))). lia.
  - simpl String.length.
    destruct (Ascii.eqb_spec c backslash) as [->|Hb].
    { rewrite quoted_from_backslash, scan_backslash. intros H.
      specialize (IH (S n) b H). lia. }
    destruct (Ascii.eqb_spec c dquote) as [->|Hq].
    { rewrite quoted_from_quote, scan_backslash.
      destruct (Nat.even (S n)) eqn:Heven.
      - destruct s as [|c' s'].
        + rewrite quoted_from_nil_0. destruct b.
          * rewrite scan_quote_double by assumption. destruct leaves; cbn [negb fst snd].
            -- rewrite scan_blank. cbn [fst snd]. intros _.
               rewrite !append_length, backslashes_length. simpl String.length.
               pose proof (half_bounds (S n)). lia.
            -- intros H. now apply scan_blank_in_quotes in H.
          * rewrite scan_quote_toggle by (assumption || reflexivity).
            cbn [negb]. rewrite scan_quote_toggle by reflexivity.
            cbn [negb]. rewrite scan_blank. cbn [fst snd]. intros _.
            rewrite !append_length, backslashes_length. simpl String.length.
            pose proof (half_bounds (S n)). lia.
        + destruct (quoted_from_head c' s' rest) as (d & t & Etext & Hd).
          pose proof (IH 0%nat (negb b)) as IH'. rewrite Etext in *.
          rewrite scan_quote_toggle
            by (assumption || (apply Ascii.eqb_neq in Hd; rewrite Hd; apply andb_false_r)).
          cbn [fst snd]. intros H. specialize (IH' H).
          rewrite append_length, backslashes_length.
          pose proof (half_bounds (S n)). lia.
      - rewrite scan_quote_odd by assumption. cbn [fst snd]. intros H.
        specialize (IH 0%nat b H).
        rewrite append_length, backslashes_length. simpl String.length.
        pose proof (half_bounds (S n)). simpl in IH. lia. }
    rewrite quoted_from_copy by assumption.
    destruct (negb b && (Ascii.eqb c " "%char || Ascii.eqb c tab)) eqn:Hstop.
    + cbn [scan_argument]. apply Ascii.eqb_neq in Hb, Hq. rewrite Hb, Hq, Hstop.
      cbn [fst snd]. rewrite backslashes_length. lia.
    + rewrite scan_copy by assumption. cbn [fst snd]. intros H.
      specialize (IH 0%nat b H).
      rewrite append_length, backslashes_length. simpl String.length. simpl in IH. lia.
Qed.

Lemma pair_eq_iff {A B} (x : A * B) (y1 : A) (y2 : B) :
  x = (y1, y2) <-> x.1 = y1 /\ x.2 = y2.
Proof. destruct x; cbn; split; [intros [= -> ->]; auto | intros [-> ->]; auto]. Qed.

(** From inside the quoted part, behind [n] backslashes of the parameter,
    the reader gives the rest of the parameter back and stops at the
    blank exactly when the rest is [readable]. *)
Lemma scan_quoted_from_readable leaves s rest n :
  scan_argument leaves (quoted_from n s rest) n true =
    (backslashes n +:+ s, String " "%char rest) <->
  readable leaves n s = true.
Proof.
  revert n. induction s as [|c s IH]; intros n.
  - cbn [readable]. destruct n as [|[|n]].
    + rewrite quoted_from_nil_0, scan_quote_toggle by reflexivity.
      cbn [negb]. rewrite scan_blank. easy.
    + rewrite quoted_from_nil_S, scan_backslash, scan_quote_toggle by reflexivity.
      cbn [negb]. rewrite scan_blank. easy.
    + rewrite quoted_from_nil_S, scan_backslash.
      split; [|discriminate]. intros H. exfalso. apply pair_eq_iff in H as [H1 H2].
      destruct (Nat.even (S (S (S n)))) eqn:Heven.
      * rewrite scan_quote_toggle in H1 by (assumption || reflexivity).
        cbn [negb] in H1. rewrite scan_blank in H1. cbn [fst] in H1.
        apply (f_equal String.length) in H1.
        rewrite !append_length, !backslashes_length in H1. simpl String.length in H1.
        pose proof (half_bounds (S (S (S n)))). lia.
      * rewrite scan_quote_odd in H2 by assumption. cbn [snd] in H2.
        now apply scan_blank_in_quotes in H2.
  - destruct (Ascii.eqb_spec c backslash) as [->|Hb].
    { rewrite quoted_from_backslash, scan_backslash, backslashes_snoc. apply IH. }
    destruct (Ascii.eqb_spec c dquote) as [->|Hq].
    { rewrite quoted_from_quote, scan_backslash. cbn [readable].
      change (Ascii.eqb dquote backslash) with false.
      change (Ascii.eqb dquote dquote) with true. cbn iota.
      destruct n as [|n].
      - rewrite scan_quote_odd by reflexivity. cbn [Nat.eqb andb].
        rewrite andb_false_r, orb_false_r.
        rewrite <- IH. rewrite !pair_eq_iff. cbn [fst snd backslashes].
        change (1 / 2)%nat with 0%nat. cbn [backslashes String.append].
        split; [intros [[= H1] H2]; auto | intros [-> H2]; auto].
      - cbn [Nat.eqb andb orb]. destruct s as [|c' s'].
        + (* the double quote is the last character of the parameter *)
          cbn [empty]. rewrite andb_true_r, quoted_from_nil_0.
          destruct (Nat.even (S (S n))) eqn:Heven.
          * rewrite scan_quote_double by assumption. rewrite pair_eq_iff. cbn [fst snd].
            destruct leaves; cbn [negb andb].
            -- rewrite scan_blank. cbn [fst snd]. split.
               ++ intros [H1 _]. apply backslashes_quote_inj in H1.
                  pose proof (half_bounds (S (S n))).
                  assert (n = 0)%nat as -> by lia. reflexivity.
               ++ intros Hn. apply Nat.eqb_eq in Hn as ->. split; reflexivity.
            -- split; [|discriminate]. intros [_ H2].
               now apply scan_blank_in_quotes in H2.
          * rewrite scan_quote_odd by assumption. rewrite pair_eq_iff. cbn [fst snd].
            split.
            -- intros [H1 _]. apply backslashes_quote_inj in H1.
               pose proof (half_bounds (S (S n))).
               assert (n = 0)%nat as -> by lia. discriminate Heven.
            -- intros Hn. apply andb_true_iff in Hn as [_ Hn].
               apply Nat.eqb_eq in Hn as ->. discriminate Heven.
        + cbn [empty]. rewrite !andb_false_r.
          split; [|discriminate]. intros H. exfalso.
          apply pair_eq_iff in H as [H1 H2].
          destruct (Nat.even (S (S n))) eqn:Heven.
          * destruct (quoted_from_head c' s' rest) as (d & t & Etext & Hd).
            pose proof (scan_quoted_from_bound leaves (String c' s') rest 0 false) as Hbound.
            rewrite Etext in *.
            rewrite scan_quote_toggle in H1, H2
              by (assumption || (apply Ascii.eqb_neq in Hd; now rewrite Hd)).
            cbn [negb fst snd] in H1, H2. specialize (Hbound H2).
            apply (f_equal String.length) in H1.
            rewrite !append_length, !backslashes_length in H1.
            cbn [String.length] in H1, Hbound.
            pose proof (half_bounds (S (S n))). lia.
          * rewrite scan_quote_odd in H1 by assumption. cbn [fst] in H1.
            apply backslashes_quote_inj in H1.
            pose proof (half_bounds (S (S n))).
            assert (n = 0)%nat as -> by lia. discriminate Heven. }
    rewrite quoted_from_copy, scan_copy by (assumption || reflexivity).
    cbn [readable]. apply Ascii.eqb_neq in Hb, Hq. rewrite Hb, Hq.
    rewrite <- IH. rewrite !pair_eq_iff. cbn [fst snd backslashes String.append].
    split.
    + intros [H1 H2]. apply append_inv_head in H1. injection H1 as H1. auto.
    + intros [-> H2]. auto.
Qed.

(** *** The two conditions *)

Lemma backslash_before_quote_cons c s :
  backslash_before_quote (String c s) =
  (Ascii.eqb c backslash &&
   match s with String d _ => Ascii.eqb d dquote | EmptyString => false end)
  || backslash_before_quote s.
Proof. destruct s; cbn; [now rewrite andb_false_r | reflexivity]. Qed.

Lemma ends_in_two_backslashes_other c s :
  c <> backslash -> ends_in_two_backslashes (String c s) = ends_in_two_backslashes s.
Proof.
  intros Hc. apply Ascii.eqb_neq in Hc.
  destruct s as [|d [|e s]]; cbn; [reflexivity | now rewrite Hc | reflexivity].
Qed.

Lemma ends_in_two_backslashes_backslash s :
  s <> String backslash EmptyString ->
  ends_in_two_backslashes (String backslash s) = ends_in_two_backslashes s.
Proof.
  intros Hs. destruct s as [|d [|e s]]; cbn; try reflexivity.
  destruct (Ascii.eqb_spec d backslash) as [->|]; [contradiction | reflexivity].
Qed.

Lemma backslash_before_quote_backslashes n : backslash_before_quote (backslashes n) = false.
Proof.
  induction n as [|n IH]; [reflexivity|]. cbn [backslashes].
  rewrite backslash_before_quote_cons, IH. now destruct n.
Qed.

Lemma ends_in_two_backslashes_backslashes n :
  ends_in_two_backslashes (backslashes n) = (2 <=? n)%nat.
Proof.
  destruct n as [|[|n]]; try reflexivity.
  induction n as [|n IH]; [reflexivity|].
  change (backslashes (S (S (S n)))) with (String backslash (backslashes (S (S n)))).
  rewrite ends_in_two_backslashes_backslash by discriminate. exact IH.
Qed.

Lemma backslash_before_quote_run n s :
  backslash_before_quote (backslashes (S n) +:+ String dquote s) = true.
Proof.
  induction n as [|n IH]; [reflexivity|].
  change (backslashes (S (S n)) +:+ String dquote s)
    with (String backslash (backslashes (S n) +:+ String dquote s)).
  rewrite backslash_before_quote_cons, IH. apply orb_true_r.
Qed.

Lemma backslash_before_quote_skip n c s :
  c <> dquote ->
  backslash_before_quote (backslashes n +:+ String c s) =
  backslash_before_quote (String c s).
Proof.
  intros Hc. apply Ascii.eqb_neq in Hc. induction n as [|n IH]; [reflexivity|].
  change (backslashes (S n) +:+ String c s)
    with (String backslash (backslashes n +:+ String c s)).
  rewrite backslash_before_quote_cons, IH.
  destruct n; cbn [backslashes String.append]; [now rewrite Hc | reflexivity].
Qed.

Lemma ends_in_two_backslashes_skip n c s :
  c <> backslash ->
  ends_in_two_backslashes (backslashes n +:+ String c s) =
  ends_in_two_backslashes (String c s).
Proof.
  intros Hc. induction n as [|n IH]; [reflexivity|].
  change (backslashes (S n) +:+ String c s)
    with (String backslash (backslashes n +:+ String c s)).
  rewrite ends_in_two_backslashes_backslash; [exact IH|].
  destruct n; cbn [backslashes String.append]; [congruence|].
  intros [= H]. destruct n; discriminate H.
Qed.

Lemma readable_spec_from s n :
  readable false n s =
  negb (backslash_before_quote (backslashes n +:+ s)) &&
  negb (ends_in_two_backslashes (backslashes n +:+ s)).
Proof.
  revert n. induction s as [|c s IH]; intros n.
  - rewrite append_nil_r, backslash_before_quote_backslashes,
      ends_in_two_backslashes_backslashes.
    cbn [readable negb andb]. now destruct n as [|[|n]].
  - cbn [readable]. destruct (Ascii.eqb_spec c backslash) as [->|Hb].
    { rewrite backslashes_snoc. apply IH. }
    destruct (Ascii.eqb_spec c dquote) as [->|Hq].
    + cbn [andb]. rewrite orb_false_r. destruct n as [|n].
      * cbn [Nat.eqb andb backslashes String.append].
        rewrite backslash_before_quote_cons, ends_in_two_backslashes_other by discriminate.
        rewrite IH. reflexivity.
      * now rewrite backslash_before_quote_run.
    + rewrite backslash_before_quote_skip, ends_in_two_backslashes_skip by assumption.
      rewrite backslash_before_quote_cons, ends_in_two_backslashes_other by assumption.
      apply Ascii.eqb_neq in Hb. rewrite Hb. rewrite IH. reflexivity.
Qed.

(** A reader that leaves the quoted part at a doubled double quote reads
    what the other reads, and a last double quote in any case. *)
Lemma readable_leaves s n : readable true n s = readable false n (drop_last_quote s).
Proof.
  revert n. induction s as [|c [|d s] IH]; intros n.
  - reflexivity.
  - cbn [drop_last_quote readable empty].
    destruct (Ascii.eqb_spec c backslash) as [->|Hb]; [reflexivity|].
    destruct (Ascii.eqb_spec c dquote) as [->|Hq].
    + cbn [readable andb orb]. rewrite !andb_true_r. now destruct n as [|[|n]].
    + cbn [readable]. apply Ascii.eqb_neq in Hb, Hq. now rewrite Hb, Hq.
  - change (drop_last_quote (String c (String d s)))
      with (String c (drop_last_quote (String d s))).
    change (readable true n (String c (String d s))) with
      (if Ascii.eqb c backslash then readable true (S n) (String d s)
       else if Ascii.eqb c dquote
            then ((n =? 0)%nat && readable true 0 (String d s)) ||
                 (true && (n =? 1)%nat && empty (String d s))
            else readable true 0 (String d s)).
    change (readable false n (String c (drop_last_quote (String d s)))) with
      (if Ascii.eqb c backslash then readable false (S n) (drop_last_quote (String d s))
       else if Ascii.eqb c dquote
            then ((n =? 0)%nat && readable false 0 (drop_last_quote (String d s))) ||
                 (false && (n =? 1)%nat && empty (drop_last_quote (String d s)))
            else readable false 0 (drop_last_quote (String d s))).
    rewrite !IH. cbn [empty andb]. now rewrite andb_false_r, !orb_false_r.
Qed.

Lemma readable_spec leaves p :
  readable leaves 0 p = true <->
  backslash_before_quote (if leaves then drop_last_quote p else p) = false /\
  ends_in_two_backslashes (if leaves then drop_last_quote p else p) = false.
Proof.
  destruct leaves; [rewrite readable_leaves|];
    rewrite readable_spec_from; cbn [backslashes String.append];
    rewrite andb_true_iff, !negb_true_iff; reflexivity.
Qed.

(** The text made by lines 600-617 is the escaped text and the backslash
    appended. *)
Lemma doubled_back s n c :
  back s = Some c ->
  doubled n s =
  if Ascii.eqb c backslash then String backslash EmptyString else EmptyString.
Proof.
  revert n. induction s as [|a [|d s] IH]; intros n.
  - discriminate.
  - intros [= ->]. cbn [doubled]. now destruct (Ascii.eqb c backslash).
  - intros Hback. change (back (String d s) = Some c) in Hback.
    change (doubled n (String a (String d s)))
      with (doubled (if Ascii.eqb a backslash then S n else 0%nat) (String d s)).
    now apply IH.
Qed.

Lemma escape_parameter_doubled p r :
  escape_parameter p = Some r -> r = escape_quotes p +:+ doubled 0 p.
Proof.
  unfold escape_parameter, double_last_backslash. rewrite back_escape_quotes.
  destruct (back p) as [c|] eqn:Hback; [|discriminate].
  cbn [mbind option_bind]. intros [= <-]. rewrite (doubled_back p 0 c Hback).
  destruct (Ascii.eqb c backslash); [reflexivity | now rewrite append_nil_r].
Qed.

(** X22.  The runtime of the helper reads a parameter written by lines
    600-620 back as the parameter, and ends the argument at the blank
    behind the closing double quote, exactly when no backslash stands
    directly before a double quote in the parameter and the parameter does
    not end in two backslashes; for a reader that leaves the quoted part
    at a doubled double quote, a double quote that ends the parameter is
    left out of the two conditions.  The escaping doubles the last
    backslash only, so a backslash before a double quote, or before
    another backslash at the end, changes what the double quote behind it
    means to the reader. *)
Theorem X22_quoted_parameter_is_read_back_iff :
  forall leaves p r rest,
    escape_parameter p = Some r ->
    scan_argument leaves (quoted r +:+ rest) 0 false = (p, String " "%char rest) <->
    backslash_before_quote (if leaves then drop_last_quote p else p) = false /\
    ends_in_two_backslashes (if leaves then drop_last_quote p else p) = false.
Proof.
  intros leaves p r rest Hr. apply escape_parameter_doubled in Hr as ->.
  rewrite <- readable_spec, <- (scan_quoted_from_readable leaves p rest 0).
  assert (quoted (escape_quotes p +:+ doubled 0 p) +:+ rest =
          String dquote (quoted_from 0 p rest)) as ->.
  { unfold quoted, quoted_from.
    change (String dquote ?x +:+ rest) with (String dquote (x +:+ rest)).
    now rewrite !append_assoc. }
  now rewrite scan_opening_quote.
Qed.

End Quoting.

(** X22 at the value [C:\dir\] of [sample_env], whose last backslash is
    doubled, for the C runtime of today. *)
Lemma X22_quoted_parameter_is_read_back_iff_witness :
  scan_argument false (quoted "C:\dir\\" +:+ "+env-replace") 0 false =
  ("C:\dir\", " +env-replace").
Proof.
  apply (X22_quoted_parameter_is_read_back_iff false "C:\dir\" "C:\dir\\" "+env-replace");
    [reflexivity | split; reflexivity].
Defined.
